(** * Repository rules: metadata rule sets and their evaluation

    A shallow embedding of the repository-rules classes of
    [app/src/main-process/menu/menu-event.ts]:
    [RepoRulesMetadataFailures], [RepoRulesMetadataRules] (with its
    methods [push], [hasRules] and [getFailedRules]), [RepoRulesInfo],
    [IRepoRulesMetadataRule], [RepoRulesMetadataMatcher] and
    [RepoRuleEnforced].

    A [RepoRulesMetadataRules] object owns one mutable field, the array
    [rules]; its methods are computations in the state monad over that
    object.  The loop of [getFailedRules] mutates a local
    [RepoRulesMetadataFailures] object, which is threaded through the loop
    explicitly.

    The development also covers [getStepConclusionText] of
    [CICheckRunListItem] and the state of [CICheckRunList]
    ([app/src/ui/check-runs/ci-check-run-list.tsx]), and the argument list
    of [git pull] ([app/src/lib/git/pull.ts]). *)

From Stdlib Require Import Ascii String List Bool Arith Lia Permutation.
From Stdlib Require Decimal DecimalString DecimalNat.
From ExtLib Require Import Structures.Monad Structures.MonadState.
From ExtLib Require Import Data.Monads.StateMonad Data.Monads.EitherMonad.
Import ListNotations.
Import MonadNotation.
Local Open Scope monad_scope.
Local Open Scope list_scope.

(** ** Data model *)

(** [type RepoRuleEnforced = boolean | 'bypass'].  [false] is a rule that
    is not enforced, [true] one that blocks, ['bypass'] one the current
    user may bypass. *)
Inductive RepoRuleEnforced : Type :=
| EnforcedBool (b : bool)
| EnforcedBypass.

(** The names the design document gives to the three values. *)
Definition Off : RepoRuleEnforced := EnforcedBool false.
Definition Required : RepoRuleEnforced := EnforcedBool true.
Definition Bypassable : RepoRuleEnforced := EnforcedBypass.

(** [type RepoRulesMetadataMatcher = (toMatch: string) => boolean] *)
Definition RepoRulesMetadataMatcher : Type := string -> bool.

(** [interface IRepoRulesMetadataRule] *)
Record IRepoRulesMetadataRule : Type := mkRule
  { enforced : RepoRuleEnforced
  ; matcher : RepoRulesMetadataMatcher
  ; humanDescription : string }.

(** [class RepoRulesMetadataFailures]: both arrays start empty. *)
Record RepoRulesMetadataFailures : Type := mkFailures
  { failed : list string
  ; bypassed : list string }.

Definition newRepoRulesMetadataFailures : RepoRulesMetadataFailures :=
  {| failed := []; bypassed := [] |}.

(** [class RepoRulesMetadataRules]: the private array [rules], empty in a
    new object. *)
Record RepoRulesMetadataRules : Type := mkRules
  { rules : list IRepoRulesMetadataRule }.

Definition newRepoRulesMetadataRules : RepoRulesMetadataRules :=
  {| rules := [] |}.

(** A method of [RepoRulesMetadataRules]: it reads and may update [this]. *)
Definition Method : Type -> Type := state RepoRulesMetadataRules.

(** ** Methods of [RepoRulesMetadataRules] *)

(** [push(rule?)]: returns at once on [undefined] ([None]), otherwise
    [this.rules.push(rule)], which appends at the end of the array. *)
Definition push (rule : option IRepoRulesMetadataRule) : Method unit :=
  match rule with
  | None => ret tt
  | Some r =>
      this <- get ;;
      put {| rules := rules this ++ [r] |}
  end.

(** [get hasRules()]: [this.rules.length > 0]. *)
Definition hasRules : Method bool :=
  this <- get ;;
  ret (0 <? List.length (rules this)).

(** [rule.enforced === 'bypass'] *)
Definition isBypass (e : RepoRuleEnforced) : bool :=
  match e with
  | EnforcedBypass => true
  | EnforcedBool _ => false
  end.

(** [failures.bypassed.push(d)] and [failures.failed.push(d)]. *)
Definition pushBypassed (d : string) (failures : RepoRulesMetadataFailures)
  : RepoRulesMetadataFailures :=
  {| failed := failed failures; bypassed := bypassed failures ++ [d] |}.

Definition pushFailed (d : string) (failures : RepoRulesMetadataFailures)
  : RepoRulesMetadataFailures :=
  {| failed := failed failures ++ [d]; bypassed := bypassed failures |}.

(** What the loop body does once the call [rule.matcher(toMatch)] has
    returned [matched]. *)
Definition record (matched : bool) (rule : IRepoRulesMetadataRule)
    (failures : RepoRulesMetadataFailures) : RepoRulesMetadataFailures :=
  if negb matched then
    if isBypass (enforced rule)
    then pushBypassed (humanDescription rule) failures
    else pushFailed (humanDescription rule) failures
  else failures.

(** The body of [for (const rule of this.rules)]. *)
Definition visit (toMatch : string) (failures : RepoRulesMetadataFailures)
    (rule : IRepoRulesMetadataRule) : RepoRulesMetadataFailures :=
  record (matcher rule toMatch) rule failures.

(** The whole loop, started from a given [failures] object. *)
Definition forRules (toMatch : string) (rs : list IRepoRulesMetadataRule)
    (failures : RepoRulesMetadataFailures) : RepoRulesMetadataFailures :=
  fold_left (visit toMatch) rs failures.

(** [getFailedRules(toMatch)]: a new failures object, the loop over
    [this.rules], and the object is returned. *)
Definition getFailedRules (toMatch : string)
  : Method RepoRulesMetadataFailures :=
  this <- get ;;
  ret (forRules toMatch (rules this) newRepoRulesMetadataFailures).

(** The same loop when a call of a matcher, as any JavaScript call, may
    complete abruptly: [invoke rule toMatch] is [Some b] when
    [rule.matcher(toMatch)] returns [b] and [None] when it throws.  The
    exception is not caught by [getFailedRules], so it ends the loop. *)
Fixpoint forRulesThrowing
    (invoke : IRepoRulesMetadataRule -> string -> option bool)
    (toMatch : string) (rs : list IRepoRulesMetadataRule)
    (failures : RepoRulesMetadataFailures)
  : option RepoRulesMetadataFailures :=
  match rs with
  | [] => Some failures
  | rule :: rest =>
      match invoke rule toMatch with
      | None => None
      | Some matched =>
          forRulesThrowing invoke toMatch rest (record matched rule failures)
      end
  end.

Definition getFailedRulesThrowing
    (invoke : IRepoRulesMetadataRule -> string -> option bool)
    (toMatch : string) (this : RepoRulesMetadataRules)
  : option RepoRulesMetadataFailures :=
  forRulesThrowing invoke toMatch (rules this) newRepoRulesMetadataFailures.

(** A matcher that honours its declared type returns a boolean. *)
Definition invokeTyped (rule : IRepoRulesMetadataRule) (toMatch : string)
  : option bool :=
  Some (matcher rule toMatch).



(** [class RepoRulesInfo], with the initial values of its fields. *)
Record RepoRulesInfo : Type := mkInfo
  { basicCommitWarning : RepoRuleEnforced
  ; creationRestricted : RepoRuleEnforced
  ; pullRequestRequired : RepoRuleEnforced
  ; commitMessagePatterns : RepoRulesMetadataRules
  ; commitAuthorEmailPatterns : RepoRulesMetadataRules
  ; committerEmailPatterns : RepoRulesMetadataRules
  ; branchNamePatterns : RepoRulesMetadataRules }.

Definition newRepoRulesInfo : RepoRulesInfo :=
  {| basicCommitWarning := EnforcedBool false
   ; creationRestricted := EnforcedBool false
   ; pullRequestRequired := EnforcedBool false
   ; commitMessagePatterns := newRepoRulesMetadataRules
   ; commitAuthorEmailPatterns := newRepoRulesMetadataRules
   ; committerEmailPatterns := newRepoRulesMetadataRules
   ; branchNamePatterns := newRepoRulesMetadataRules |}.

(** ** Derived notions used in the statements *)

(** Pushing the rules of a list one after the other. *)
Fixpoint pushAll (rs : list (option IRepoRulesMetadataRule)) : Method unit :=
  match rs with
  | [] => ret tt
  | r :: rest => push r ;; pushAll rest
  end.

(** The rule fails on the candidate. *)
Definition fails (toMatch : string) (rule : IRepoRulesMetadataRule) : bool :=
  negb (matcher rule toMatch).

Definition failsHard (toMatch : string) (rule : IRepoRulesMetadataRule) : bool :=
  fails toMatch rule && negb (isBypass (enforced rule)).

Definition failsBypassed (toMatch : string) (rule : IRepoRulesMetadataRule)
  : bool :=
  fails toMatch rule && isBypass (enforced rule).

(** No stored rule is tagged [Off]. *)
Definition noOffRule (this : RepoRulesMetadataRules) : Prop :=
  Forall (fun rule => enforced rule <> Off) (rules this).

(** ** The builder of a [RepoRulesInfo]

    The function that turns the raw server configuration into a
    [RepoRulesInfo] ([parseRepoRules], named in the comment of
    [basicCommitWarning]) is not part of the files modelled above. *)

(** Modelled from the spec: the category tag of a raw rule, three scalar
    categories and the four metadata categories (the record type of raw
    rules is missing from the sources). *)
Inductive RuleCategory : Type :=
| BasicCommitWarning
| CreationRestriction
| PullRequestRequired
| CommitMessagePattern
| CommitAuthorEmailPattern
| CommitterEmailPattern
| BranchNamePattern.

(** Modelled from the spec: a raw rule record is tagged with a category,
    a pattern string, a negation flag and an actor-bypassable flag (the
    type is missing from the sources). *)
Record RawRuleConfig : Type := mkRaw
  { category : RuleCategory
  ; pattern : string
  ; negation : bool
  ; actorBypassable : bool }.

(** Modelled from the spec: the only configuration error, a pattern that
    cannot be compiled into a matcher. *)
Inductive ConfigurationError : Type :=
| InvalidPattern.

Definition RuleCategory_eqb (a b : RuleCategory) : bool :=
  match a, b with
  | BasicCommitWarning, BasicCommitWarning
  | CreationRestriction, CreationRestriction
  | PullRequestRequired, PullRequestRequired
  | CommitMessagePattern, CommitMessagePattern
  | CommitAuthorEmailPattern, CommitAuthorEmailPattern
  | CommitterEmailPattern, CommitterEmailPattern
  | BranchNamePattern, BranchNamePattern => true
  | _, _ => false
  end.

Definition isMetadataCategory (c : RuleCategory) : bool :=
  match c with
  | CommitMessagePattern | CommitAuthorEmailPattern
  | CommitterEmailPattern | BranchNamePattern => true
  | BasicCommitWarning | CreationRestriction | PullRequestRequired => false
  end.

Section RuleSetBuilder.

(** The pattern compiler (the regular-expression engine) and the text of
    a description are outside the repository: [compile p] is [None] when
    the pattern [p] cannot be compiled. *)
Variable compile : string -> option RepoRulesMetadataMatcher.
Variable describe : string -> bool -> string.

(** Modelled from the spec: step 1 of [build], the raw rules of one
    category, in configuration order. *)
Definition rulesOfCategory (c : RuleCategory) (rawRules : list RawRuleConfig)
  : list RawRuleConfig :=
  filter (fun raw => RuleCategory_eqb (category raw) c) rawRules.

(** Modelled from the spec: the enforcement level of a raw rule that is
    present, [Bypassable] when the rule is marked actor-bypassable and
    the actor is bypass-eligible, else [Required]. *)
Definition resolveEnforcement (actorIsBypassEligible : bool)
    (raw : RawRuleConfig) : RepoRuleEnforced :=
  if actorBypassable raw && actorIsBypassEligible
  then Bypassable else Required.

(** Modelled from the spec: step 2 of [build], a scalar flag.  It stays
    [Off] when no raw rule of the category is present; each raw rule
    that is present sets it (the design document does not say how
    several rules of one scalar category combine). *)
Definition scalarFlag (actorIsBypassEligible : bool) (c : RuleCategory)
    (rawRules : list RawRuleConfig) : RepoRuleEnforced :=
  fold_left (fun _ raw => resolveEnforcement actorIsBypassEligible raw)
            (rulesOfCategory c rawRules) Off.

(** Modelled from the spec: the matcher of a raw rule, from its pattern
    and negation fields; a pattern that does not compile is
    [InvalidPattern]. *)
Definition buildMatcher (raw : RawRuleConfig)
  : ConfigurationError + RepoRulesMetadataMatcher :=
  match compile (pattern raw) with
  | None => inl InvalidPattern
  | Some m =>
      inr (if negation raw then (fun toMatch => negb (m toMatch)) else m)
  end.

(** Modelled from the spec: the metadata rule of a raw rule (matcher,
    resolved level, description). *)
Definition toMetadataRule (actorIsBypassEligible : bool)
    (raw : RawRuleConfig) : ConfigurationError + IRepoRulesMetadataRule :=
  m <- buildMatcher raw ;;
  ret {| enforced := resolveEnforcement actorIsBypassEligible raw
       ; matcher := m
       ; humanDescription := describe (pattern raw) (negation raw) |}.

(** Modelled from the spec: step 3 of [build] for the raw rules of one
    metadata category, each rule pushed into the set built so far;
    the first failure aborts. *)
Fixpoint pushRawRules (actorIsBypassEligible : bool)
    (raws : list RawRuleConfig) (set : RepoRulesMetadataRules)
  : ConfigurationError + RepoRulesMetadataRules :=
  match raws with
  | [] => ret set
  | raw :: rest =>
      rule <- toMetadataRule actorIsBypassEligible raw ;;
      pushRawRules actorIsBypassEligible rest
                   (execState (push (Some rule)) set)
  end.

Definition metadataSet (actorIsBypassEligible : bool) (c : RuleCategory)
    (rawRules : list RawRuleConfig)
  : ConfigurationError + RepoRulesMetadataRules :=
  pushRawRules actorIsBypassEligible (rulesOfCategory c rawRules)
               newRepoRulesMetadataRules.

(** Modelled from the spec: [build(rawRules, actorIsBypassEligible)],
    steps 1 to 4 of the builder (the function is missing from the
    sources). *)
Definition build (rawRules : list RawRuleConfig)
    (actorIsBypassEligible : bool) : ConfigurationError + RepoRulesInfo :=
  let flag := fun c => scalarFlag actorIsBypassEligible c rawRules in
  let set := fun c => metadataSet actorIsBypassEligible c rawRules in
  message <- set CommitMessagePattern ;;
  author <- set CommitAuthorEmailPattern ;;
  committer <- set CommitterEmailPattern ;;
  branch <- set BranchNamePattern ;;
  ret {| basicCommitWarning := flag BasicCommitWarning
       ; creationRestricted := flag CreationRestriction
       ; pullRequestRequired := flag PullRequestRequired
       ; commitMessagePatterns := message
       ; commitAuthorEmailPatterns := author
       ; committerEmailPatterns := committer
       ; branchNamePatterns := branch |}.

End RuleSetBuilder.

(** ** Sample rules and configurations *)

Module Samples.

(** A candidate starts with / contains a given text. *)
Definition startsWith (p : string) : RepoRulesMetadataMatcher :=
  fun toMatch => String.prefix p toMatch.

Fixpoint contains (p toMatch : string) : bool :=
  String.prefix p toMatch
  || match toMatch with
     | EmptyString => false
     | String _ rest => contains p rest
     end.

Definition noWip : IRepoRulesMetadataRule :=
  {| enforced := Required
   ; matcher := fun toMatch => negb (startsWith "wip/" toMatch)
   ; humanDescription := "must not start with 'wip/'" |}.

Definition needsJira : IRepoRulesMetadataRule :=
  {| enforced := Bypassable
   ; matcher := contains "JIRA-"
   ; humanDescription := "must contain 'JIRA-'" |}.

Definition needsFix : IRepoRulesMetadataRule :=
  {| enforced := Required
   ; matcher := startsWith "fix"
   ; humanDescription := "must start with 'fix'" |}.

Definition needsDot : IRepoRulesMetadataRule :=
  {| enforced := Required
   ; matcher := contains "."
   ; humanDescription := "must contain '.'" |}.

Definition needsTicket : IRepoRulesMetadataRule :=
  {| enforced := Bypassable
   ; matcher := contains "#"
   ; humanDescription := "must contain '#'" |}.

(** A rule object whose [enforced] field is [false]. *)
Definition notEnforced : IRepoRulesMetadataRule :=
  {| enforced := Off
   ; matcher := startsWith "feature/"
   ; humanDescription := "must start with 'feature/'" |}.




(** A candidate with a NUL, a BEL and a line feed in it. *)
Definition controlCandidate : string :=
  String "000"%char (String "007"%char (String "010"%char "wip/x"%string)).

(** A toy pattern compiler: a pattern with an unclosed parenthesis as
    its first character does not compile, any other pattern is a
    containment test. *)
Definition toyCompile (p : string) : option RepoRulesMetadataMatcher :=
  if String.prefix "(" p then None else Some (contains p).

Definition toyDescribe (p : string) (negated : bool) : string :=
  ((if negated then "must not match " else "must match ") ++ p)%string.

Definition rawGood : RawRuleConfig :=
  {| category := CommitMessagePattern; pattern := "JIRA-"
   ; negation := false; actorBypassable := true |}.

Definition rawBad : RawRuleConfig :=
  {| category := BranchNamePattern; pattern := "(wip"
   ; negation := true; actorBypassable := false |}.

Definition rawProtected : RawRuleConfig :=
  {| category := CreationRestriction; pattern := ""
   ; negation := false; actorBypassable := false |}.

End Samples.

(** ** Numbers in template literals *)

(** [`${n}`] and [n.toString()] for a count or an id, a non-negative
    integer: its decimal digits. *)
Definition numberToString (n : nat) : string :=
  DecimalString.NilEmpty.string_of_uint (Nat.to_uint n).

(** ** [getStepConclusionText] of [CICheckRunListItem]
    ([app/src/ui/check-runs/ci-check-run-list.tsx]) *)

Module CheckRunListItem.

(** [enum APICheckConclusion] is declared in [lib/api], outside the files
    at hand: the members [getStepConclusionText] names, and
    [OtherConclusion] for any member it does not name. *)
Inductive APICheckConclusion : Type :=
| ActionRequired
| TimedOut
| Failure
| Canceled
| Stale
| Neutral
| Skipped
| Success
| OtherConclusion (value : string).

(** [APICheckConclusion | 'in_progress'], the keys of the map. *)
Inductive ConclusionKey : Type :=
| Conclusion (c : APICheckConclusion)
| InProgress.

Definition APICheckConclusion_eq_dec (a b : APICheckConclusion)
  : {a = b} + {a <> b}.
Proof. decide equality. apply string_dec. Defined.

Definition ConclusionKey_eq_dec (a b : ConclusionKey) : {a = b} + {a <> b}.
Proof. decide equality. apply APICheckConclusion_eq_dec. Defined.

Definition keyEqb (a b : ConclusionKey) : bool :=
  if ConclusionKey_eq_dec a b then true else false.

(** The field of [IAPIWorkflowJobStep] the function reads: [conclusion],
    which may be [null]. *)
Record IAPIWorkflowJobStep : Type := mkStep
  { conclusion : option APICheckConclusion }.

(** [Map<APICheckConclusion | 'in_progress', number>]: the entries in
    insertion order, one per key. *)
Definition ConclusionMap : Type := list (ConclusionKey * nat).

Definition mapHas (k : ConclusionKey) (m : ConclusionMap) : bool :=
  existsb (fun entry => keyEqb (fst entry) k) m.

Fixpoint mapGet (k : ConclusionKey) (m : ConclusionMap) : option nat :=
  match m with
  | [] => None
  | (k', v) :: rest => if keyEqb k' k then Some v else mapGet k rest
  end.

(** [set] replaces the value of a key that is present, where it stands,
    and adds a new key at the end. *)
Fixpoint mapSet (k : ConclusionKey) (v : nat) (m : ConclusionMap)
  : ConclusionMap :=
  match m with
  | [] => [(k, v)]
  | (k', v') :: rest =>
      if keyEqb k' k then (k', v) :: rest else (k', v') :: mapSet k v rest
  end.

Definition mapSize (m : ConclusionMap) : nat := List.length m.

Definition mapKeys (m : ConclusionMap) : list ConclusionKey := map fst m.

(** [conclusions.get(key) ?? 0] *)
Definition getOrZero (m : ConclusionMap) (k : ConclusionKey) : nat :=
  match mapGet k m with
  | Some n => n
  | None => 0
  end.

(** [step.conclusion ?? 'in_progress'] *)
Definition keyOfStep (step : IAPIWorkflowJobStep) : ConclusionKey :=
  match conclusion step with
  | Some c => Conclusion c
  | None => InProgress
  end.

(** The body of [for (const step of actionJobSteps)]. *)
Definition countStep (conclusions : ConclusionMap)
    (step : IAPIWorkflowJobStep) : ConclusionMap :=
  let key := keyOfStep step in
  if negb (mapHas key conclusions) then mapSet key 1 conclusions
  else
    let count := getOrZero conclusions key in
    mapSet key (count + 1) conclusions.

Definition countConclusions (actionJobSteps : list IAPIWorkflowJobStep)
  : ConclusionMap :=
  fold_left countStep actionJobSteps [].

(** The table [orderedConclussions]. *)
Definition orderedConclussions : list (ConclusionKey * string) :=
  [ (Conclusion ActionRequired, "require action")
  ; (Conclusion TimedOut, "timed out")
  ; (Conclusion Failure, "failed")
  ; (Conclusion Canceled, "canceled")
  ; (Conclusion Stale, "stale")
  ; (InProgress, "in progress")
  ; (Conclusion Neutral, "neutral")
  ; (Conclusion Skipped, "skipped")
  ; (Conclusion Success, "successful") ]%string.

(** The two variables the second loop updates. *)
Record Summary : Type := mkSummary
  { conclusionText : string
  ; appended : list ConclusionKey }.

(** [`${conclusions.get(conclusion.key)} ${conclusion.adjective}`] *)
Definition phrase (conclusions : ConclusionMap)
    (entry : ConclusionKey * string) : string :=
  ((match mapGet (fst entry) conclusions with
    | Some n => numberToString n
    | None => "undefined"
    end) ++ " " ++ snd entry)%string.

(** The body of [for (const conclusion of orderedConclussions)] up to the
    test for [break].  The separator is chosen only where the map has the
    key, so [conclusions.size] is at least one there and
    [conclusions.size - 1] is not negative. *)
Definition appendConclusion (conclusions : ConclusionMap) (acc : Summary)
    (entry : ConclusionKey * string) : Summary :=
  if mapHas (fst entry) conclusions then
    let separator :=
      if List.length (appended acc) <? mapSize conclusions - 1
      then ", "%string else ", and "%string in
    let text :=
      if negb (conclusionText acc =? "")%string
      then (conclusionText acc ++ separator)%string
      else conclusionText acc in
    {| conclusionText := (text ++ phrase conclusions entry)%string
     ; appended := appended acc ++ [fst entry] |}
  else acc.

(** The loop, which stops once three keys are appended. *)
Fixpoint appendConclusions (conclusions : ConclusionMap)
    (table : list (ConclusionKey * string)) (acc : Summary) : Summary :=
  match table with
  | [] => acc
  | entry :: rest =>
      let acc' := appendConclusion conclusions acc entry in
      if List.length (appended acc') =? 3 then acc'
      else appendConclusions conclusions rest acc'
  end.

Definition summarize (conclusions : ConclusionMap) : Summary :=
  appendConclusions conclusions orderedConclussions
                    {| conclusionText := ""; appended := [] |}.

(** [appended.includes(c)] *)
Definition includes (c : ConclusionKey) (keys : list ConclusionKey) : bool :=
  existsb (keyEqb c) keys.

(** [remaining] and [remainingCount]. *)
Definition remaining (conclusions : ConclusionMap)
    (shown : list ConclusionKey) : list ConclusionKey :=
  filter (fun c => negb (includes c shown)) (mapKeys conclusions).

Definition remainingCount (conclusions : ConclusionMap)
    (shown : list ConclusionKey) : nat :=
  fold_left (fun count key => count + getOrZero conclusions key)
            (remaining conclusions shown) 0.

(** [getStepConclusionText], given [this.props.checkRun.actionJobSteps]
    ([None] is [undefined]). *)
Definition getStepConclusionText
    (actionJobSteps : option (list IAPIWorkflowJobStep)) : string :=
  match actionJobSteps with
  | None => ""
  | Some steps =>
      let conclusions := countConclusions steps in
      let summary := summarize conclusions in
      if 3 <? mapSize conclusions then
        (conclusionText summary ++ ", and "
         ++ numberToString (remainingCount conclusions (appended summary))
         ++ " steps")%string
      else (conclusionText summary ++ " steps")%string
  end.

(** The count a key has among the steps. *)
Definition countOf (k : ConclusionKey) (steps : list IAPIWorkflowJobStep)
  : nat :=
  count_occ ConclusionKey_eq_dec (map keyOfStep steps) k.

(** What the first loop keeps true of the map, [seen] being the keys of
    the steps counted so far: one entry per key, the values add up to the
    number of steps, and each key has its number of occurrences. *)
Definition counts (m : ConclusionMap) (seen : list ConclusionKey) : Prop :=
  NoDup (mapKeys m)
  /\ list_sum (map snd m) = List.length seen
  /\ forall k,
      mapGet k m
      = (let n := count_occ ConclusionKey_eq_dec seen k in
         if n =? 0 then None else Some n).

(** The conclusion of the step is one the table lists. *)
Definition listed (step : IAPIWorkflowJobStep) : bool :=
  existsb (fun entry => keyEqb (fst entry) (keyOfStep step))
          orderedConclussions.

End CheckRunListItem.

(** ** The state of [CICheckRunList]
    ([app/src/ui/check-runs/ci-check-run-list.tsx]) *)

Module CheckRunList.

Section Component.

(** [IRefCheck], [isFailure] and
    [getCheckRunsGroupedByActionWorkflowNameAndEvent] come from
    [lib/ci-checks], outside the files at hand: the type with the two
    fields the component reads, and the two functions, are parameters. *)
Variable IRefCheck : Type.
Variable id : IRefCheck -> nat.
Variable actionJobSteps :
  IRefCheck -> option (list CheckRunListItem.IAPIWorkflowJobStep).
Variable isFailure : IRefCheck -> bool.
Variable getCheckRunsGroupedByActionWorkflowNameAndEvent :
  list IRefCheck -> list (string * list IRefCheck).

(** [ICICheckRunListProps]: the check runs, the optional [selectable],
    and whether the optional callback [onCheckRunClick] is given. *)
Record ICICheckRunListProps : Type := mkProps
  { checkRuns : list IRefCheck
  ; selectable : option bool
  ; onCheckRunClickGiven : bool }.

(** [ICICheckRunListState]; the map of groups keeps its insertion order. *)
Record ICICheckRunListState : Type := mkState
  { checkRunGroups : list (string * list IRefCheck)
  ; checkRunExpanded : option string
  ; hasUserToggledCheckRun : bool }.

(** [cr => isFailure(cr) && cr.actionJobSteps !== undefined] *)
Definition failureWithSteps (cr : IRefCheck) : bool :=
  isFailure cr
  && match actionJobSteps cr with
     | Some _ => true
     | None => false
     end.

(** The loop over [checkRunGroups.values()]: the id of the first failure
    found, [None] ([null]) when no group has one. *)
Fixpoint firstFailureExpanded (groups : list (list IRefCheck))
  : option string :=
  match groups with
  | [] => None
  | group :: rest =>
      match find failureWithSteps group with
      | Some firstFailure => Some (numberToString (id firstFailure))
      | None => firstFailureExpanded rest
      end
  end.

Definition setupStateAfterCheckRunPropChange (props : ICICheckRunListProps)
    (currentState : option ICICheckRunListState) : ICICheckRunListState :=
  match currentState with
  | Some current =>
      if hasUserToggledCheckRun current then current
      else
        {| checkRunGroups := checkRunGroups current
         ; checkRunExpanded :=
             firstFailureExpanded (map snd (checkRunGroups current))
         ; hasUserToggledCheckRun := hasUserToggledCheckRun current || false |}
  | None =>
      let groups :=
        getCheckRunsGroupedByActionWorkflowNameAndEvent (checkRuns props) in
      {| checkRunGroups := groups
       ; checkRunExpanded := firstFailureExpanded (map snd groups)
       ; hasUserToggledCheckRun := false |}
  end.

(** The constructor: [this.state = setup(this.props, null)]. *)
Definition initialState (props : ICICheckRunListProps)
  : ICICheckRunListState :=
  setupStateAfterCheckRunPropChange props None.

(** [componentDidUpdate]: [setState] with the two fields taken from the
    result; the groups of the state stay. *)
Definition componentDidUpdate (props : ICICheckRunListProps)
    (state : ICICheckRunListState) : ICICheckRunListState :=
  let next := setupStateAfterCheckRunPropChange props (Some state) in
  {| checkRunGroups := checkRunGroups state
   ; checkRunExpanded := checkRunExpanded next
   ; hasUserToggledCheckRun := hasUserToggledCheckRun next |}.

(** [this.state.checkRunExpanded === c.id.toString()] *)
Definition isExpanded (state : ICICheckRunListState) (c : IRefCheck) : bool :=
  match checkRunExpanded state with
  | Some expanded => (expanded =? numberToString (id c))%string
  | None => false
  end.

(** [!this.props.selectable] is false only for [selectable = true]. *)
Definition selectableTruthy (props : ICICheckRunListProps) : bool :=
  match selectable props with
  | Some true => true
  | _ => false
  end.

(** [onCheckRunClick]: the new state, and the calls made to the callback
    of the props. *)
Definition onCheckRunClick (props : ICICheckRunListProps)
    (state : ICICheckRunListState) (checkRun : IRefCheck)
  : ICICheckRunListState * list IRefCheck :=
  let expanded :=
    if isExpanded state checkRun && negb (selectableTruthy props)
    then None
    else Some (numberToString (id checkRun)) in
  ({| checkRunGroups := checkRunGroups state
    ; checkRunExpanded := expanded
    ; hasUserToggledCheckRun := true |},
   if onCheckRunClickGiven props then [checkRun] else []).

(** The three flags [renderListItems] passes to the item of a check run:
    [selectable], [selected] and [isCheckRunExpanded]. *)
Record ItemFlags : Type := mkFlags
  { itemSelectable : bool
  ; itemSelected : bool
  ; itemExpanded : bool }.

Definition itemFlags (props : ICICheckRunListProps)
    (state : ICICheckRunListState) (c : IRefCheck) : ItemFlags :=
  let expanded := isExpanded state c in
  let selectable := selectableTruthy props in
  {| itemSelectable := selectable
   ; itemSelected := selectable && expanded
   ; itemExpanded := negb selectable && expanded |}.

End Component.

Arguments mkProps {IRefCheck}.
Arguments checkRuns {IRefCheck}.
Arguments selectable {IRefCheck}.
Arguments onCheckRunClickGiven {IRefCheck}.
Arguments mkState {IRefCheck}.
Arguments checkRunGroups {IRefCheck}.
Arguments checkRunExpanded {IRefCheck}.
Arguments hasUserToggledCheckRun {IRefCheck}.
Arguments failureWithSteps {IRefCheck}.
Arguments firstFailureExpanded {IRefCheck}.
Arguments setupStateAfterCheckRunPropChange {IRefCheck}.
Arguments initialState {IRefCheck}.
Arguments componentDidUpdate {IRefCheck}.
Arguments isExpanded {IRefCheck}.
Arguments selectableTruthy {IRefCheck}.
Arguments onCheckRunClick {IRefCheck}.
Arguments itemFlags {IRefCheck}.

End CheckRunList.

(** ** The arguments of [git pull] ([app/src/lib/git/pull.ts]) *)

Module Pull.

(** [getDefaultPullDivergentBranchArguments], given the two configuration
    values it reads ([None] is [null]). *)
Definition getDefaultPullDivergentBranchArguments
    (pullRebase pullFF : option string) : list string :=
  let isNull := fun value : option string =>
                  match value with
                  | None => true
                  | Some _ => false
                  end in
  if negb (isNull pullRebase) || negb (isNull pullFF)
  then []
  else ["--ff"%string].

(** [getPullArgs], given what [gitNetworkArguments], [gitRebaseArguments]
    and [enableRecurseSubmodulesFlag] return, the two configuration
    values, and whether a progress callback is passed. *)
Definition getPullArgs (networkArguments rebaseArguments : list string)
    (pullRebase pullFF : option string) (recurseSubmodules : bool)
    (progressCallbackGiven : bool) (remote : string) : list string :=
  let divergentPathArgs :=
    getDefaultPullDivergentBranchArguments pullRebase pullFF in
  let args :=
    networkArguments ++ rebaseArguments ++ ["pull"%string]
    ++ divergentPathArgs in
  let args :=
    if recurseSubmodules then args ++ ["--recurse-submodules"%string]
    else args in
  let args :=
    if progressCallbackGiven then args ++ ["--progress"%string] else args in
  args ++ [remote].

End Pull.

(** ** Sample steps, check runs and arguments *)

Module CheckSamples.

Import CheckRunListItem.

Definition succeeded : IAPIWorkflowJobStep := {| conclusion := Some Success |}.
Definition failedStep : IAPIWorkflowJobStep := {| conclusion := Some Failure |}.
Definition skipped : IAPIWorkflowJobStep := {| conclusion := Some Skipped |}.
Definition running : IAPIWorkflowJobStep := {| conclusion := None |}.

Definition twoKinds : list IAPIWorkflowJobStep :=
  [succeeded; failedStep; succeeded].

Definition fourKinds : list IAPIWorkflowJobStep :=
  [succeeded; running; succeeded; failedStep; skipped].

(** A check run: its id, whether it is a failure, and its job steps. *)
Record CheckRun : Type := mkCheckRun
  { runId : nat
  ; runFailed : bool
  ; runSteps : option (list IAPIWorkflowJobStep) }.

Definition buildRun : CheckRun :=
  {| runId := 7; runFailed := false; runSteps := Some twoKinds |}.
Definition lintRun : CheckRun :=
  {| runId := 12; runFailed := true; runSteps := None |}.
Definition testRun : CheckRun :=
  {| runId := 31; runFailed := true; runSteps := Some fourKinds |}.

(** All check runs in one group. *)
Definition oneGroup (runs : list CheckRun) : list (string * list CheckRun) :=
  [("Other"%string, runs)].

Definition plainList : CheckRunList.ICICheckRunListProps CheckRun :=
  {| CheckRunList.checkRuns := [buildRun; lintRun; testRun]
   ; CheckRunList.selectable := None
   ; CheckRunList.onCheckRunClickGiven := false |}.

Definition selectableList : CheckRunList.ICICheckRunListProps CheckRun :=
  {| CheckRunList.checkRuns := [buildRun; lintRun; testRun]
   ; CheckRunList.selectable := Some true
   ; CheckRunList.onCheckRunClickGiven := true |}.

End CheckSamples.

(** * Properties *)

(** ** Running the methods *)

Lemma run_push_undefined (this : RepoRulesMetadataRules) :
  runState (push None) this = (tt, this).
Proof. reflexivity. Qed.

Lemma run_push_rule (rule : IRepoRulesMetadataRule)
    (this : RepoRulesMetadataRules) :
  runState (push (Some rule)) this = (tt, {| rules := rules this ++ [rule] |}).
Proof. reflexivity. Qed.

Lemma run_hasRules (this : RepoRulesMetadataRules) :
  runState hasRules this = (0 <? List.length (rules this), this).
Proof. reflexivity. Qed.

Lemma run_getFailedRules (toMatch : string) (this : RepoRulesMetadataRules) :
  runState (getFailedRules toMatch) this
  = (forRules toMatch (rules this) newRepoRulesMetadataFailures, this).
Proof. reflexivity. Qed.

Lemma exec_pushAll (rs : list (option IRepoRulesMetadataRule)) :
  forall this,
    rules (execState (pushAll rs) this)
    = rules this ++ flat_map (fun r => match r with
                                       | Some rule => [rule]
                                       | None => []
                                       end) rs.
Proof.
  induction rs as [| r rest IH]; intros this.
  - cbn. now rewrite app_nil_r.
  - destruct r as [rule |].
    + change (execState (pushAll (Some rule :: rest)) this)
        with (execState (pushAll rest) {| rules := rules this ++ [rule] |}).
      rewrite IH. cbn. now rewrite <- app_assoc.
    + change (execState (pushAll (None :: rest)) this)
        with (execState (pushAll rest) this).
      now rewrite IH.
Qed.

(** ** The loop of [getFailedRules] *)

Lemma forRules_app toMatch (xs ys : list IRepoRulesMetadataRule) failures :
  forRules toMatch (xs ++ ys) failures
  = forRules toMatch ys (forRules toMatch xs failures).
Proof. unfold forRules. apply fold_left_app. Qed.

Lemma visit_failed toMatch failures rule :
  failed (visit toMatch failures rule)
  = failed failures
    ++ (if failsHard toMatch rule then [humanDescription rule] else []).
Proof.
  unfold visit, record, failsHard, fails.
  destruct (matcher rule toMatch), (isBypass (enforced rule)); cbn;
    now rewrite ?app_nil_r.
Qed.

Lemma visit_bypassed toMatch failures rule :
  bypassed (visit toMatch failures rule)
  = bypassed failures
    ++ (if failsBypassed toMatch rule then [humanDescription rule] else []).
Proof.
  unfold visit, record, failsBypassed, fails.
  destruct (matcher rule toMatch), (isBypass (enforced rule)); cbn;
    now rewrite ?app_nil_r.
Qed.

(** The loop appends to each array the descriptions of the rules it
    selects, every rule being looked at, in the order of the array. *)
Lemma forRules_failed toMatch rs :
  forall failures,
    failed (forRules toMatch rs failures)
    = failed failures ++ map humanDescription (filter (failsHard toMatch) rs).
Proof.
  induction rs as [| rule rest IH]; intros failures.
  - cbn. now rewrite app_nil_r.
  - change (forRules toMatch (rule :: rest) failures)
      with (forRules toMatch rest (visit toMatch failures rule)).
    rewrite IH, visit_failed. cbn [filter].
    destruct (failsHard toMatch rule); cbn [map].
    + now rewrite <- app_assoc.
    + now rewrite app_nil_r.
Qed.

Lemma forRules_bypassed toMatch rs :
  forall failures,
    bypassed (forRules toMatch rs failures)
    = bypassed failures
      ++ map humanDescription (filter (failsBypassed toMatch) rs).
Proof.
  induction rs as [| rule rest IH]; intros failures.
  - cbn. now rewrite app_nil_r.
  - change (forRules toMatch (rule :: rest) failures)
      with (forRules toMatch rest (visit toMatch failures rule)).
    rewrite IH, visit_bypassed. cbn [filter].
    destruct (failsBypassed toMatch rule); cbn [map].
    + now rewrite <- app_assoc.
    + now rewrite app_nil_r.
Qed.

Lemma eval_getFailedRules_failed toMatch this :
  failed (evalState (getFailedRules toMatch) this)
  = map humanDescription (filter (failsHard toMatch) (rules this)).
Proof.
  unfold evalState. rewrite run_getFailedRules. cbn [fst].
  now rewrite forRules_failed.
Qed.

Lemma eval_getFailedRules_bypassed toMatch this :
  bypassed (evalState (getFailedRules toMatch) this)
  = map humanDescription (filter (failsBypassed toMatch) (rules this)).
Proof.
  unfold evalState. rewrite run_getFailedRules. cbn [fst].
  now rewrite forRules_bypassed.
Qed.

Lemma app_singleton_neq {A} (l : list A) (x : A) : l ++ [x] <> l.
Proof.
  intros H. apply (f_equal (@List.length A)) in H.
  rewrite length_app in H. cbn in H. lia.
Qed.

(** ** Classification of the failing rules *)

(** The report of a rule array split around one rule is the report of the
    part before it, what that rule adds, and the report of the part after
    it. *)
Lemma getFailedRules_split toMatch before rule after :
  let report :=
    evalState (getFailedRules toMatch) {| rules := before ++ rule :: after |} in
  let reportBefore :=
    evalState (getFailedRules toMatch) {| rules := before |} in
  let reportAfter := evalState (getFailedRules toMatch) {| rules := after |} in
  failed report
  = failed reportBefore
    ++ (if failsHard toMatch rule then [humanDescription rule] else [])
    ++ failed reportAfter
  /\ bypassed report
     = bypassed reportBefore
       ++ (if failsBypassed toMatch rule then [humanDescription rule] else [])
       ++ bypassed reportAfter.
Proof.
  cbv zeta. rewrite !eval_getFailedRules_failed, !eval_getFailedRules_bypassed.
  cbn [rules]. rewrite !filter_app, !map_app. cbn [filter].
  split.
  - now destruct (failsHard toMatch rule).
  - now destruct (failsBypassed toMatch rule).
Qed.

(** C1.  Wherever a rule stands in the array, [getFailedRules] classifies
    it by its enforcement level when its matcher returns [false] on the
    candidate: the description of a [Required] rule is added to [failed]
    (between what the rules before it and the rules after it add) and
    nothing is added to [bypassed]; the description of a [Bypassable] rule
    is added to [bypassed] and nothing to [failed]; a rule whose matcher
    returns [true] adds nothing to either array. *)
Theorem getFailedRules_classifies_by_enforcement :
  forall (before after : list IRepoRulesMetadataRule)
         (rule : IRepoRulesMetadataRule) (toMatch : string),
    let report :=
      evalState (getFailedRules toMatch)
                {| rules := before ++ rule :: after |} in
    let reportBefore :=
      evalState (getFailedRules toMatch) {| rules := before |} in
    let reportAfter :=
      evalState (getFailedRules toMatch) {| rules := after |} in
    (matcher rule toMatch = false -> enforced rule = Required ->
     failed report
     = failed reportBefore ++ humanDescription rule :: failed reportAfter
     /\ bypassed report = bypassed reportBefore ++ bypassed reportAfter)
    /\ (matcher rule toMatch = false -> enforced rule = Bypassable ->
        failed report = failed reportBefore ++ failed reportAfter
        /\ bypassed report
           = bypassed reportBefore
             ++ humanDescription rule :: bypassed reportAfter)
    /\ (matcher rule toMatch = true ->
        failed report = failed reportBefore ++ failed reportAfter
        /\ bypassed report = bypassed reportBefore ++ bypassed reportAfter).
Proof.
  intros before after rule toMatch.
  destruct (getFailedRules_split toMatch before rule after) as [Hf Hb].
  cbv zeta in *. rewrite Hf, Hb. unfold failsHard, failsBypassed, fails.
  split; [| split].
  - intros Hm He. rewrite Hm, He. split; reflexivity.
  - intros Hm He. rewrite Hm, He. split; reflexivity.
  - intros Hm. rewrite Hm. split; reflexivity.
Qed.

Lemma getFailedRules_classifies_by_enforcement_witness :
  let report :=
    evalState (getFailedRules "wip/feature")
              {| rules := [Samples.needsJira] ++ Samples.noWip
                                              :: [Samples.needsFix] |} in
  failed report
  = ["must not start with 'wip/'"; "must start with 'fix'"]%string
  /\ bypassed report = ["must contain 'JIRA-'"%string].
Proof.
  exact (proj1 (getFailedRules_classifies_by_enforcement
                  [Samples.needsJira] [Samples.needsFix] Samples.noWip
                  "wip/feature"%string)
               eq_refl eq_refl).
Defined.

(** ** Order of the report *)

(** C2.  [getFailedRules] looks at every stored rule: [failed] is the list
    of the descriptions of all the failing rules that are not bypassable
    and [bypassed] that of all the failing bypassable rules, each in the
    order of the array, which is insertion order.  In particular three
    failing rules pushed one after the other on a new rule set give
    exactly their three descriptions, in that order, in [failed] when none
    is bypassable and in [bypassed] when all are. *)
Theorem getFailedRules_insertion_order :
  (forall (this : RepoRulesMetadataRules) (toMatch : string),
      failed (evalState (getFailedRules toMatch) this)
      = map humanDescription (filter (failsHard toMatch) (rules this))
      /\ bypassed (evalState (getFailedRules toMatch) this)
         = map humanDescription (filter (failsBypassed toMatch) (rules this)))
  /\ (forall (R1 R2 R3 : IRepoRulesMetadataRule) (toMatch : string),
         matcher R1 toMatch = false ->
         matcher R2 toMatch = false ->
         matcher R3 toMatch = false ->
         let this :=
           execState (pushAll [Some R1; Some R2; Some R3])
                     newRepoRulesMetadataRules in
         let report := evalState (getFailedRules toMatch) this in
         let all := [humanDescription R1; humanDescription R2;
                     humanDescription R3] in
         rules this = [R1; R2; R3]
         /\ (isBypass (enforced R1) = false ->
             isBypass (enforced R2) = false ->
             isBypass (enforced R3) = false ->
             failed report = all /\ bypassed report = [])
         /\ (isBypass (enforced R1) = true ->
             isBypass (enforced R2) = true ->
             isBypass (enforced R3) = true ->
             bypassed report = all /\ failed report = [])).
Proof.
  split.
  - intros this toMatch. split.
    + apply eval_getFailedRules_failed.
    + apply eval_getFailedRules_bypassed.
  - intros R1 R2 R3 toMatch H1 H2 H3. cbv zeta.
    rewrite eval_getFailedRules_failed, eval_getFailedRules_bypassed.
    rewrite exec_pushAll. cbn [flat_map rules newRepoRulesMetadataRules app].
    split; [reflexivity |].
    unfold failsHard, failsBypassed, fails. cbn [filter].
    rewrite H1, H2, H3. cbn [negb andb].
    split; intros B1 B2 B3; rewrite B1, B2, B3; cbn; split; reflexivity.
Qed.

Lemma getFailedRules_insertion_order_witness :
  let this :=
    execState (pushAll [Some Samples.needsFix; Some Samples.noWip;
                        Some Samples.needsDot])
              newRepoRulesMetadataRules in
  failed (evalState (getFailedRules "wip/feature") this)
  = ["must start with 'fix'"; "must not start with 'wip/'";
     "must contain '.'"]%string
  /\ bypassed (evalState (getFailedRules "wip/feature") this) = [].
Proof.
  exact (proj1 (proj2 (proj2 getFailedRules_insertion_order
                         Samples.needsFix Samples.noWip Samples.needsDot
                         "wip/feature"%string eq_refl eq_refl eq_refl))
               eq_refl eq_refl eq_refl).
Defined.

(** A failing rule in the middle does not stop the loop: a mixed rule set
    reports the later rules too, each array in insertion order. *)
Example getFailedRules_mixed :
  evalState (getFailedRules "wip/feature")
            (execState (pushAll [Some Samples.needsFix; None;
                                 Some Samples.needsJira; Some Samples.noWip;
                                 Some Samples.needsTicket])
                       newRepoRulesMetadataRules)
  = {| failed := ["must start with 'fix'"; "must not start with 'wip/'"]
     ; bypassed := ["must contain 'JIRA-'"; "must contain '#'"] |}%string.
Proof. reflexivity. Qed.

(** ** Rules tagged [Off] *)

Lemma noOffRule_push_rule (this : RepoRulesMetadataRules)
    (rule : IRepoRulesMetadataRule) :
  noOffRule (execState (push (Some rule)) this)
  <-> noOffRule this /\ enforced rule <> Off.
Proof.
  unfold noOffRule, execState. rewrite run_push_rule. cbn [snd rules].
  rewrite Forall_app. split.
  - intros [Hthis Hrule]. split; [assumption |]. now inversion Hrule.
  - intros [Hthis Hrule]. split; [assumption |]. now constructor.
Qed.

(** C3, as stated, fails: [push] stores whatever rule object it is given,
    so pushing a rule whose [enforced] field is [false] on a new rule set,
    which stores no [Off] rule, leaves a rule tagged [Off] in it. *)
Lemma push_stores_off_rule :
  noOffRule newRepoRulesMetadataRules
  /\ ~ noOffRule (execState (push (Some Samples.notEnforced))
                            newRepoRulesMetadataRules).
Proof.
  split.
  - constructor.
  - intros H. apply noOffRule_push_rule in H. destruct H as [_ H].
    now apply H.
Qed.

(** C3, amended.  A new rule set stores no rule, hence no rule tagged
    [Off]; [push] keeps it so exactly when the rule it is given, if any,
    is not itself tagged [Off] (the rule set does not filter: that is left
    to whoever builds the rule); [hasRules] and [getFailedRules] leave the
    stored rules as they are. *)
Theorem noOffRule_preserved :
  rules newRepoRulesMetadataRules = []
  /\ noOffRule newRepoRulesMetadataRules
  /\ (forall (this : RepoRulesMetadataRules)
             (rule : option IRepoRulesMetadataRule),
         noOffRule this ->
         (forall r, rule = Some r -> enforced r <> Off) ->
         noOffRule (execState (push rule) this))
  /\ (forall (this : RepoRulesMetadataRules) (r : IRepoRulesMetadataRule),
         enforced r = Off ->
         ~ noOffRule (execState (push (Some r)) this))
  /\ (forall (this : RepoRulesMetadataRules) (toMatch : string),
         execState hasRules this = this
         /\ execState (getFailedRules toMatch) this = this).
Proof.
  split; [reflexivity |].
  split; [constructor |].
  split; [| split].
  - intros this [r |] Hthis Hrule.
    + apply noOffRule_push_rule. split; [assumption |]. now apply Hrule.
    + exact Hthis.
  - intros this r Hoff H. apply noOffRule_push_rule in H.
    destruct H as [_ H]. now apply H.
  - intros this toMatch. split; reflexivity.
Qed.

Lemma noOffRule_preserved_witness :
  noOffRule (execState (push (Some Samples.needsJira))
                       (execState (push (Some Samples.noWip))
                                  newRepoRulesMetadataRules))
  /\ ~ noOffRule (execState (push (Some Samples.notEnforced))
                            newRepoRulesMetadataRules).
Proof.
  destruct noOffRule_preserved as [_ [Hnew [Hpush [Hoff _]]]].
  split.
  - apply Hpush.
    + apply Hpush.
      * exact Hnew.
      * intros r Hr. injection Hr as <-. cbn. discriminate.
    + intros r Hr. injection Hr as <-. cbn. discriminate.
  - apply Hoff. reflexivity.
Defined.

(** Rule sets filled with rules that are [Required] or [Bypassable] never
    store an [Off] rule. *)
Lemma noOffRule_pushAll (rs : list (option IRepoRulesMetadataRule)) :
  (forall r, In (Some r) rs -> enforced r <> Off) ->
  forall this, noOffRule this -> noOffRule (execState (pushAll rs) this).
Proof.
  intros Hrs this Hthis. unfold noOffRule in *. rewrite exec_pushAll.
  apply Forall_app. split; [assumption |].
  apply Forall_forall. intros rule Hin. apply in_flat_map in Hin.
  destruct Hin as [[r |] [Hin Hr]]; cbn in Hr; [| contradiction].
  destruct Hr as [<- | []]. now apply Hrs.
Qed.

(** ** [push] without a rule *)

(** C5.  [push] called with [undefined] does nothing: the rule set is the
    same object state as before, so any method run after it behaves as if
    the call had not happened; in particular [hasRules] and
    [getFailedRules] on every candidate return what they returned
    before. *)
Theorem push_undefined_noop :
  forall this : RepoRulesMetadataRules,
    runState (push None) this = (tt, this)
    /\ evalState hasRules (execState (push None) this)
       = evalState hasRules this
    /\ (forall toMatch : string,
           evalState (getFailedRules toMatch) (execState (push None) this)
           = evalState (getFailedRules toMatch) this)
    /\ (forall (A : Type) (next : Method A),
           runState (push None ;; next) this = runState next this).
Proof.
  intros this. split; [apply run_push_undefined |].
  unfold execState. rewrite run_push_undefined. cbn [snd].
  split; [reflexivity |]. split; [reflexivity |].
  intros A next. reflexivity.
Qed.

(** ** Rule sets without rules *)

(** C6.  [hasRules] is true exactly when a rule is stored; on a rule set
    with no stored rule it is false and [getFailedRules] returns two
    empty arrays for every candidate. *)
Theorem empty_rule_set :
  forall this : RepoRulesMetadataRules,
    (evalState hasRules this = true <-> exists rule, In rule (rules this))
    /\ (List.length (rules this) = 0 ->
        evalState hasRules this = false
        /\ forall toMatch : string,
            evalState (getFailedRules toMatch) this
            = {| failed := []; bypassed := [] |}).
Proof.
  intros [rs]. unfold evalState. rewrite run_hasRules. cbn [fst rules].
  split.
  - rewrite Nat.ltb_lt. destruct rs as [| rule rest]; cbn.
    + split; [lia | intros [rule []]].
    + split; [eauto | lia].
  - intros Hlen. apply length_zero_iff_nil in Hlen. subst rs.
    split; reflexivity.
Qed.

Lemma empty_rule_set_witness :
  evalState hasRules newRepoRulesMetadataRules = false
  /\ forall toMatch : string,
      evalState (getFailedRules toMatch) newRepoRulesMetadataRules
      = {| failed := []; bypassed := [] |}.
Proof.
  exact (proj2 (empty_rule_set newRepoRulesMetadataRules) eq_refl).
Defined.

(** ** Repeated evaluation *)





(** The report depends on the stored rules only through their levels,
    their descriptions and what their matchers return on the candidate. *)
Lemma getFailedRules_ext toMatch (this other : RepoRulesMetadataRules) :
  Forall2 (fun r r' => enforced r = enforced r'
                       /\ humanDescription r = humanDescription r'
                       /\ matcher r toMatch = matcher r' toMatch)
          (rules this) (rules other) ->
  evalState (getFailedRules toMatch) this
  = evalState (getFailedRules toMatch) other.
Proof.
  intros H. unfold evalState. rewrite !run_getFailedRules. cbn [fst].
  generalize newRepoRulesMetadataFailures.
  induction H as [| r r' rs rs' (He & Hd & Hm) _ IH]; intros failures.
  - reflexivity.
  - change (forRules toMatch (r :: rs) failures)
      with (forRules toMatch rs (visit toMatch failures r)).
    change (forRules toMatch (r' :: rs') failures)
      with (forRules toMatch rs' (visit toMatch failures r')).
    unfold visit, record. rewrite He, Hd, Hm. apply IH.
Qed.

(** ** Matchers that throw *)

(** With matchers that may throw, the loop ends abruptly exactly when the
    call of some stored matcher does. *)
Lemma forRulesThrowing_None invoke toMatch rs :
  forall failures,
    forRulesThrowing invoke toMatch rs failures = None
    <-> exists rule, In rule rs /\ invoke rule toMatch = None.
Proof.
  induction rs as [| rule rest IH]; intros failures; cbn.
  - split; [discriminate | intros [rule [[] _]]].
  - destruct (invoke rule toMatch) as [matched |] eqn:Hcall.
    + rewrite IH. split.
      * intros [r [Hin Hr]]. exists r. auto.
      * intros [r [[<- | Hin] Hr]]; [congruence |]. exists r. auto.
    + split; [| reflexivity]. intros _. exists rule. auto.
Qed.

Lemma forRulesThrowing_typed toMatch rs :
  forall failures,
    forRulesThrowing invokeTyped toMatch rs failures
    = Some (forRules toMatch rs failures).
Proof.
  induction rs as [| rule rest IH]; intros failures.
  - reflexivity.
  - cbn [forRulesThrowing invokeTyped]. rewrite IH. reflexivity.
Qed.





(** The empty string and a string with control characters are candidates
    like any other. *)
Example getFailedRules_empty_candidate :
  runState (getFailedRules "")
           {| rules := [Samples.noWip; Samples.needsJira; Samples.needsFix] |}
  = ({| failed := ["must start with 'fix'"]
      ; bypassed := ["must contain 'JIRA-'"] |}%string,
     {| rules := [Samples.noWip; Samples.needsJira; Samples.needsFix] |}).
Proof. reflexivity. Qed.

Example getFailedRules_control_candidate :
  evalState (getFailedRules Samples.controlCandidate)
            {| rules := [Samples.noWip; Samples.needsJira; Samples.needsFix] |}
  = {| failed := ["must start with 'fix'"]
     ; bypassed := ["must contain 'JIRA-'"] |}%string.
Proof. reflexivity. Qed.

(** ** The test on [enforced] *)

Lemma app_cons_neq {A} (l1 l2 : list A) (x : A) :
  l1 ++ x :: l2 <> l1 ++ l2.
Proof.
  intros H. apply (f_equal (@List.length A)) in H.
  rewrite !length_app in H. cbn in H. lia.
Qed.

(** C9.  Wherever a rule stands in the array, when its matcher returns
    [false] on the candidate its description is added to [bypassed]
    exactly when its [enforced] field is ['bypass'], and to [failed] for
    every other value of the field; so a rule stored with
    [enforced = false] is reported in [failed], as a [Required] rule is,
    and the array that does not receive the description is the one the
    other rules give. *)
Theorem getFailedRules_bypass_exactly :
  forall (before after : list IRepoRulesMetadataRule)
         (rule : IRepoRulesMetadataRule) (toMatch : string),
    matcher rule toMatch = false ->
    let report :=
      evalState (getFailedRules toMatch)
                {| rules := before ++ rule :: after |} in
    let reportBefore :=
      evalState (getFailedRules toMatch) {| rules := before |} in
    let reportAfter :=
      evalState (getFailedRules toMatch) {| rules := after |} in
    (bypassed report
     = bypassed reportBefore ++ humanDescription rule :: bypassed reportAfter
     <-> enforced rule = EnforcedBypass)
    /\ (failed report
        = failed reportBefore ++ humanDescription rule :: failed reportAfter
        <-> enforced rule <> EnforcedBypass)
    /\ (enforced rule = EnforcedBypass ->
        failed report = failed reportBefore ++ failed reportAfter)
    /\ (enforced rule <> EnforcedBypass ->
        bypassed report = bypassed reportBefore ++ bypassed reportAfter)
    /\ (enforced rule = EnforcedBool false ->
        failed report
        = failed reportBefore ++ humanDescription rule :: failed reportAfter
        /\ bypassed report = bypassed reportBefore ++ bypassed reportAfter).
Proof.
  intros before after rule toMatch Hm.
  destruct (getFailedRules_split toMatch before rule after) as [Hf Hb].
  cbv zeta in *. rewrite Hf, Hb. unfold failsHard, failsBypassed, fails.
  rewrite Hm. cbn [negb andb].
  destruct (enforced rule) as [b |]; cbn [isBypass negb app].
  - split; [| split; [| split; [| split]]].
    + split; [| discriminate].
      intros H. symmetry in H. now apply app_cons_neq in H.
    + split; [discriminate | reflexivity].
    + discriminate.
    + reflexivity.
    + intros _. split; reflexivity.
  - split; [| split; [| split; [| split]]].
    + split; reflexivity.
    + split; [| congruence].
      intros H. symmetry in H. now apply app_cons_neq in H.
    + reflexivity.
    + congruence.
    + discriminate.
Qed.

Lemma getFailedRules_bypass_exactly_witness :
  let report :=
    evalState (getFailedRules "fix main")
              {| rules := [Samples.needsJira; Samples.noWip]
                          ++ Samples.notEnforced
                          :: [Samples.needsFix; Samples.needsTicket] |} in
  failed report = ["must start with 'feature/'"%string]
  /\ bypassed report = ["must contain 'JIRA-'"; "must contain '#'"]%string.
Proof.
  exact (proj2 (proj2 (proj2 (proj2
           (getFailedRules_bypass_exactly
              [Samples.needsJira; Samples.noWip]
              [Samples.needsFix; Samples.needsTicket] Samples.notEnforced
              "fix main"%string eq_refl))))
           eq_refl).
Defined.

(** ** Size and origin of the report *)

Lemma filter_fails_permutation toMatch (rs : list IRepoRulesMetadataRule) :
  Permutation (filter (failsHard toMatch) rs
               ++ filter (failsBypassed toMatch) rs)
              (filter (fails toMatch) rs).
Proof.
  unfold failsHard, failsBypassed.
  induction rs as [| rule rest IH]; cbn [filter]; [constructor |].
  destruct (fails toMatch rule), (isBypass (enforced rule)); cbn.
  - apply Permutation_sym, Permutation_cons_app, Permutation_sym, IH.
  - now constructor.
  - exact IH.
  - exact IH.
Qed.

(** C10.  The report has as many descriptions, [failed] and [bypassed]
    together, as there are stored rules whose matcher returns [false] on
    the candidate; these descriptions are, up to order, the descriptions
    of those rules, one for each; and every description reported is that
    of a stored rule whose matcher returns [false]. *)
Theorem getFailedRules_counts_failing_rules :
  forall (this : RepoRulesMetadataRules) (toMatch : string),
    let report := evalState (getFailedRules toMatch) this in
    List.length (failed report) + List.length (bypassed report)
    = List.length (filter (fails toMatch) (rules this))
    /\ Permutation (failed report ++ bypassed report)
                   (map humanDescription
                        (filter (fails toMatch) (rules this)))
    /\ (forall d : string,
           In d (failed report ++ bypassed report) ->
           exists rule,
             In rule (rules this)
             /\ matcher rule toMatch = false
             /\ humanDescription rule = d).
Proof.
  intros this toMatch. cbv zeta.
  rewrite eval_getFailedRules_failed, eval_getFailedRules_bypassed.
  assert (HP : Permutation
                 (map humanDescription (filter (failsHard toMatch) (rules this))
                  ++ map humanDescription
                         (filter (failsBypassed toMatch) (rules this)))
                 (map humanDescription (filter (fails toMatch) (rules this)))).
  { rewrite <- map_app. apply Permutation_map, filter_fails_permutation. }
  split; [| split].
  - rewrite <- length_app, (Permutation_length HP). apply length_map.
  - exact HP.
  - intros d Hd. eapply Permutation_in in Hd; [| exact HP].
    apply in_map_iff in Hd. destruct Hd as [rule [Hdesc Hin]].
    apply filter_In in Hin. destruct Hin as [Hin Hfail].
    exists rule. split; [assumption |]. split; [| assumption].
    unfold fails in Hfail. now apply negb_true_iff in Hfail.
Qed.

Lemma getFailedRules_counts_failing_rules_witness :
  exists rule,
    In rule [Samples.needsFix; Samples.noWip; Samples.needsJira]
    /\ matcher rule "fix: wip"%string = false
    /\ humanDescription rule = "must contain 'JIRA-'"%string.
Proof.
  apply (proj2 (proj2 (getFailedRules_counts_failing_rules
                         {| rules := [Samples.needsFix; Samples.noWip;
                                      Samples.needsJira] |}
                         "fix: wip"%string))).
  cbn. left. reflexivity.
Defined.

(** ** The builder and patterns that do not compile *)

Lemma RuleCategory_eqb_refl (c : RuleCategory) : RuleCategory_eqb c c = true.
Proof. destruct c; reflexivity. Qed.

Section BuilderProperties.

Variable compile : string -> option RepoRulesMetadataMatcher.
Variable describe : string -> bool -> string.

Lemma toMetadataRule_invalid eligible raw :
  compile (pattern raw) = None ->
  toMetadataRule compile describe eligible raw = inl InvalidPattern.
Proof.
  intros H. unfold toMetadataRule, buildMatcher. rewrite H. reflexivity.
Qed.

Lemma toMetadataRule_valid eligible raw :
  compile (pattern raw) <> None ->
  exists rule, toMetadataRule compile describe eligible raw = inr rule.
Proof.
  intros H. unfold toMetadataRule, buildMatcher.
  destruct (compile (pattern raw)) as [m |]; [| contradiction].
  eexists. reflexivity.
Qed.

(** One bad pattern among the raw rules of a category fails the whole
    category, whatever was pushed before it. *)
Lemma pushRawRules_invalid eligible bad raws :
  In bad raws ->
  compile (pattern bad) = None ->
  forall set,
    pushRawRules compile describe eligible raws set = inl InvalidPattern.
Proof.
  intros Hin Hbad.
  induction raws as [| raw rest IH]; intros set; [contradiction |].
  cbn [pushRawRules].
  destruct (toMetadataRule compile describe eligible raw)
    as [[] | rule] eqn:Hrule; [reflexivity |].
  destruct Hin as [-> | Hin].
  - rewrite toMetadataRule_invalid in Hrule by assumption. discriminate.
  - cbn. apply IH, Hin.
Qed.

Lemma pushRawRules_valid eligible raws :
  (forall raw, In raw raws -> compile (pattern raw) <> None) ->
  forall set,
  exists built,
    pushRawRules compile describe eligible raws set = inr built
    /\ List.length (rules built)
       = List.length (rules set) + List.length raws.
Proof.
  induction raws as [| raw rest IH]; intros Hall set.
  - exists set. cbn. split; [reflexivity | lia].
  - destruct (toMetadataRule_valid eligible raw) as [rule Hrule].
    { apply Hall. now left. }
    cbn [pushRawRules]. rewrite Hrule. cbn.
    destruct (IH (fun r Hr => Hall r (or_intror Hr))
                 {| rules := rules set ++ [rule] |}) as [built [Hb Hlen]].
    exists built. split; [exact Hb |].
    rewrite Hlen. cbn [rules]. rewrite length_app. cbn. lia.
Qed.

Lemma metadataSet_invalid eligible bad rawRules :
  In bad rawRules ->
  compile (pattern bad) = None ->
  metadataSet compile describe eligible (category bad) rawRules
  = inl InvalidPattern.
Proof.
  intros Hin Hbad. unfold metadataSet.
  apply pushRawRules_invalid with (bad := bad); [| assumption].
  unfold rulesOfCategory. apply filter_In. split; [assumption |].
  apply RuleCategory_eqb_refl.
Qed.

(** C4.  When some raw rule of a metadata category has a pattern that
    does not compile, [build] returns the error [InvalidPattern] and no
    [RepoRulesInfo], whatever the other raw rules are and wherever the
    bad rule stands among them. *)
Theorem build_invalid_pattern_aborts :
  forall (rawRules : list RawRuleConfig) (actorIsBypassEligible : bool)
         (bad : RawRuleConfig),
    In bad rawRules ->
    isMetadataCategory (category bad) = true ->
    compile (pattern bad) = None ->
    build compile describe rawRules actorIsBypassEligible
    = inl InvalidPattern
    /\ forall info : RepoRulesInfo,
        build compile describe rawRules actorIsBypassEligible <> inr info.
Proof.
  intros rawRules eligible bad Hin Hcat Hbad.
  assert (Hset := metadataSet_invalid eligible bad rawRules Hin Hbad).
  assert (Hbuild : build compile describe rawRules eligible
                   = inl InvalidPattern).
  { unfold build. cbv zeta.
    destruct (metadataSet compile describe eligible CommitMessagePattern
                          rawRules) as [[] | message] eqn:Hm;
      [reflexivity |].
    destruct (metadataSet compile describe eligible CommitAuthorEmailPattern
                          rawRules) as [[] | author] eqn:Ha;
      [reflexivity |].
    destruct (metadataSet compile describe eligible CommitterEmailPattern
                          rawRules) as [[] | committer] eqn:Hc;
      [reflexivity |].
    destruct (metadataSet compile describe eligible BranchNamePattern
                          rawRules) as [[] | branch] eqn:Hb;
      [reflexivity |].
    destruct (category bad); try discriminate Hcat; congruence. }
  split; [exact Hbuild |].
  intros info H. rewrite Hbuild in H. discriminate.
Qed.

(** The builder does return a [RepoRulesInfo] when every pattern of a
    metadata category compiles. *)
Lemma build_valid rawRules eligible :
  (forall raw, In raw rawRules ->
               isMetadataCategory (category raw) = true ->
               compile (pattern raw) <> None) ->
  exists info, build compile describe rawRules eligible = inr info.
Proof.
  intros Hall.
  assert (Hset : forall c, isMetadataCategory c = true ->
            exists built,
              metadataSet compile describe eligible c rawRules = inr built).
  { intros c Hc. unfold metadataSet.
    destruct (pushRawRules_valid eligible (rulesOfCategory c rawRules))
      with (set := newRepoRulesMetadataRules) as [built [Hb _]].
    - intros raw Hraw. apply filter_In in Hraw. destruct Hraw as [Hin Hc'].
      apply Hall; [assumption |].
      destruct (category raw), c; try discriminate; reflexivity.
    - eauto. }
  unfold build. cbv zeta.
  destruct (Hset CommitMessagePattern eq_refl) as [message ->].
  destruct (Hset CommitAuthorEmailPattern eq_refl) as [author ->].
  destruct (Hset CommitterEmailPattern eq_refl) as [committer ->].
  destruct (Hset BranchNamePattern eq_refl) as [branch ->].
  eexists. reflexivity.
Qed.

End BuilderProperties.

Lemma build_invalid_pattern_aborts_witness :
  build Samples.toyCompile Samples.toyDescribe
        [Samples.rawGood; Samples.rawProtected; Samples.rawBad;
         Samples.rawGood] true
  = inl InvalidPattern.
Proof.
  exact (proj1 (build_invalid_pattern_aborts
                  Samples.toyCompile Samples.toyDescribe
                  [Samples.rawGood; Samples.rawProtected; Samples.rawBad;
                   Samples.rawGood] true Samples.rawBad
                  (or_intror (or_intror (or_introl eq_refl)))
                  eq_refl eq_refl)).
Defined.

(** Without the bad rule the same configuration builds: one bypassable
    commit-message rule, branch creation restricted. *)
Example build_sample :
  match build Samples.toyCompile Samples.toyDescribe
              [Samples.rawGood; Samples.rawProtected] true with
  | inr info =>
      creationRestricted info = Required
      /\ basicCommitWarning info = Off
      /\ evalState (getFailedRules "fix bug") (commitMessagePatterns info)
         = {| failed := []; bypassed := ["must match JIRA-"%string] |}
      /\ evalState hasRules (branchNamePatterns info) = false
  | inl _ => False
  end.
Proof. cbn. repeat split. Qed.


(** * Further properties of the rule sets *)

(** X1.  The report of [getFailedRules] has two empty arrays exactly when
    the matcher of every stored rule returns [true] on the candidate, and
    its [failed] array is empty exactly when every stored rule that does
    not match is a ['bypass'] rule. *)
Theorem getFailedRules_empty_iff_all_pass :
  forall (this : RepoRulesMetadataRules) (toMatch : string),
    let report := evalState (getFailedRules toMatch) this in
    (failed report = [] /\ bypassed report = []
     <-> Forall (fun rule => matcher rule toMatch = true) (rules this))
    /\ (failed report = []
        <-> Forall (fun rule => matcher rule toMatch = false ->
                                enforced rule = EnforcedBypass)
                   (rules this)).
Proof.
  intros this toMatch. cbv zeta.
  rewrite eval_getFailedRules_failed, eval_getFailedRules_bypassed.
  unfold failsHard, failsBypassed, fails.
  induction (rules this) as [| rule rest [IHall IHhard]].
  - cbn. split; split; intros; auto.
  - cbn [filter]. rewrite !Forall_cons_iff.
    destruct (matcher rule toMatch) eqn:Hm;
      destruct (enforced rule) as [b |] eqn:He; cbn [negb andb isBypass map].
    + rewrite IHall, IHhard. split; split; intros H;
        try (split; [discriminate || reflexivity | tauto]); tauto.
    + rewrite IHall, IHhard. split; split; intros H;
        try (split; [discriminate || reflexivity | tauto]); tauto.
    + split; split; intros H; try discriminate.
      * destruct H as [H _]. discriminate.
      * destruct H as [H _]. discriminate.
      * destruct H as [H _]. specialize (H eq_refl). discriminate.
    + rewrite IHhard. split; split; intros H; try tauto.
      * destruct H as [_ H]. discriminate.
      * destruct H as [H _]. discriminate.
Qed.

(** X2.  Pushing further rules extends the report and disturbs nothing
    in it: on every candidate, each array of the report of the enlarged
    rule set is the array of the old report followed by the array that
    the pushed rules alone would give. *)
Theorem getFailedRules_after_pushAll :
  forall (this : RepoRulesMetadataRules)
         (rs : list (option IRepoRulesMetadataRule)) (toMatch : string),
    let before := evalState (getFailedRules toMatch) this in
    let added :=
      evalState (getFailedRules toMatch)
                (execState (pushAll rs) newRepoRulesMetadataRules) in
    let after :=
      evalState (getFailedRules toMatch) (execState (pushAll rs) this) in
    failed after = failed before ++ failed added
    /\ bypassed after = bypassed before ++ bypassed added.
Proof.
  intros this rs toMatch. cbv zeta.
  rewrite !eval_getFailedRules_failed, !eval_getFailedRules_bypassed.
  rewrite !exec_pushAll. cbn [rules newRepoRulesMetadataRules app].
  rewrite !filter_app, !map_app. split; reflexivity.
Qed.

(** X3.  Rules are only ever added, at the end: after any sequence of
    calls of [push] the rules stored before are still the first ones, in
    the same order, the number of rules has grown by the number of
    arguments that were rules, and [hasRules] is true exactly when it was
    true before or some argument was a rule. *)
Theorem pushAll_only_appends :
  forall (this : RepoRulesMetadataRules)
         (rs : list (option IRepoRulesMetadataRule)),
    let after := execState (pushAll rs) this in
    firstn (List.length (rules this)) (rules after) = rules this
    /\ List.length (rules after)
       = List.length (rules this)
         + List.length (filter (fun r => match r with
                                         | Some _ => true
                                         | None => false
                                         end) rs)
    /\ evalState hasRules after
       = evalState hasRules this
         || existsb (fun r => match r with
                              | Some _ => true
                              | None => false
                              end) rs.
Proof.
  intros this rs. cbv zeta. unfold evalState. rewrite !run_hasRules.
  cbn [fst]. rewrite exec_pushAll.
  set (defined := flat_map _ rs).
  assert (Hlen : List.length defined
                 = List.length (filter (fun r => match r with
                                                 | Some _ => true
                                                 | None => false
                                                 end) rs)).
  { subst defined. induction rs as [| [r |] rest IH]; cbn; auto. }
  assert (Hex : existsb (fun r => match r with
                                  | Some _ => true
                                  | None => false
                                  end) rs
                = (0 <? List.length defined)).
  { subst defined. clear Hlen. induction rs as [| [r |] rest IH]; cbn; auto. }
  split; [| split].
  - rewrite firstn_app, Nat.sub_diag, firstn_all. cbn. apply app_nil_r.
  - rewrite length_app. lia.
  - rewrite length_app, Hex.
    destruct (List.length (rules this)), (List.length defined); reflexivity.
Qed.

(** X4.  If the call of a matcher may throw, [getFailedRules] throws
    exactly when the call of some stored matcher throws on the candidate
    (a partial report is never returned), and it returns the report of
    the matchers' answers when every call returns. *)
Theorem getFailedRulesThrowing_throws_iff :
  forall (invoke : IRepoRulesMetadataRule -> string -> option bool)
         (this : RepoRulesMetadataRules) (toMatch : string),
    (getFailedRulesThrowing invoke toMatch this = None
     <-> exists rule, In rule (rules this) /\ invoke rule toMatch = None)
    /\ ((forall rule, In rule (rules this) ->
                      invoke rule toMatch = Some (matcher rule toMatch)) ->
        getFailedRulesThrowing invoke toMatch this
        = Some (evalState (getFailedRules toMatch) this)).
Proof.
  intros invoke this toMatch. unfold getFailedRulesThrowing, evalState.
  rewrite run_getFailedRules. cbn [fst]. split.
  - apply forRulesThrowing_None.
  - generalize newRepoRulesMetadataFailures.
    induction (rules this) as [| rule rest IH]; intros failures Hall.
    + reflexivity.
    + cbn [forRulesThrowing]. rewrite (Hall rule (or_introl eq_refl)).
      apply IH. intros r Hr. apply Hall. now right.
Qed.

Lemma getFailedRulesThrowing_throws_iff_witness :
  getFailedRulesThrowing
    (fun rule toMatch => if (toMatch =? "")%string then None
                         else Some (matcher rule toMatch))
    "fix bug" {| rules := [Samples.needsFix; Samples.needsJira] |}
  = Some (evalState (getFailedRules "fix bug")
                    {| rules := [Samples.needsFix; Samples.needsJira] |}).
Proof.
  apply (proj2 (getFailedRulesThrowing_throws_iff
                  (fun rule toMatch => if (toMatch =? "")%string then None
                                       else Some (matcher rule toMatch))
                  {| rules := [Samples.needsFix; Samples.needsJira] |}
                  "fix bug"%string)).
  intros rule _. reflexivity.
Defined.

(** * Properties of [getStepConclusionText] *)

Section ConclusionMaps.

Import CheckRunListItem.

Lemma keyEqb_eq (a b : ConclusionKey) : keyEqb a b = true <-> a = b.
Proof.
  unfold keyEqb. destruct (ConclusionKey_eq_dec a b); split;
    congruence.
Qed.

Lemma keyEqb_refl (a : ConclusionKey) : keyEqb a a = true.
Proof. now apply keyEqb_eq. Qed.

Lemma keyEqb_neq (a b : ConclusionKey) : keyEqb a b = false <-> a <> b.
Proof.
  unfold keyEqb. destruct (ConclusionKey_eq_dec a b); split;
    congruence.
Qed.

Lemma mapHas_In k m : mapHas k m = true <-> In k (mapKeys m).
Proof.
  unfold mapHas, mapKeys. rewrite existsb_exists, in_map_iff. split.
  - intros [e [Hin He]]. apply keyEqb_eq in He. eauto.
  - intros [e [He Hin]]. exists e. split; [assumption |].
    now apply keyEqb_eq.
Qed.

Lemma mapGet_None k m : mapGet k m = None <-> mapHas k m = false.
Proof.
  induction m as [| [k' v] rest IH]; cbn; [tauto |].
  destruct (keyEqb k' k); cbn; [split; discriminate | exact IH].
Qed.

Lemma mapGet_mapSet_same k v m : mapGet k (mapSet k v m) = Some v.
Proof.
  induction m as [| [k' v'] rest IH]; cbn.
  - now rewrite keyEqb_refl.
  - destruct (keyEqb k' k) eqn:E; cbn; rewrite E; [reflexivity | exact IH].
Qed.

Lemma mapGet_mapSet_other k k' v m :
  k <> k' -> mapGet k' (mapSet k v m) = mapGet k' m.
Proof.
  intros Hne. induction m as [| [k0 v0] rest IH]; cbn.
  - apply keyEqb_neq in Hne. now rewrite Hne.
  - destruct (keyEqb k0 k) eqn:E; cbn.
    + apply keyEqb_eq in E. subst k0.
      apply keyEqb_neq in Hne. now rewrite Hne.
    + now rewrite IH.
Qed.

Lemma mapKeys_mapSet k v m :
  mapKeys (mapSet k v m)
  = if mapHas k m then mapKeys m else mapKeys m ++ [k].
Proof.
  unfold mapHas, mapKeys.
  induction m as [| [k' v'] rest IH]; cbn; [reflexivity |].
  destruct (keyEqb k' k) eqn:E; cbn; [reflexivity |].
  rewrite IH. now destruct (existsb _ rest).
Qed.

Lemma mapValues_mapSet k v m :
  list_sum (map snd (mapSet k v m))
  + match mapGet k m with Some n => n | None => 0 end
  = list_sum (map snd m) + v.
Proof.
  induction m as [| [k' v'] rest IH]; cbn [mapSet mapGet map snd list_sum fold_right];
    [lia |].
  destruct (keyEqb k' k); cbn [map snd list_sum fold_right].
  - lia.
  - change (fold_right Nat.add 0 (map snd (mapSet k v rest)))
      with (list_sum (map snd (mapSet k v rest))).
    change (fold_right Nat.add 0 (map snd rest))
      with (list_sum (map snd rest)).
    lia.
Qed.

Lemma counts_countStep m seen step :
  counts m seen -> counts (countStep m step) (seen ++ [keyOfStep step]).
Proof.
  intros (Hnd & Hsum & Hget). unfold countStep.
  set (key := keyOfStep step).
  assert (Hkeys : NoDup (mapKeys (mapSet key
                    (match mapGet key m with
                     | Some n => n + 1 | None => 1 end) m))).
  { rewrite mapKeys_mapSet. destruct (mapHas key m) eqn:Hh; [assumption |].
    apply NoDup_app; [assumption | repeat constructor; intros [] | ].
    intros k Hk [<- | []]. apply mapHas_In in Hk. congruence. }
  assert (Hsame :
    (if negb (mapHas key m) then mapSet key 1 m
     else mapSet key (getOrZero m key + 1) m)
    = mapSet key (match mapGet key m with
                  | Some n => n + 1 | None => 1 end) m).
  { unfold getOrZero. destruct (mapHas key m) eqn:Hh; cbn [negb].
    - destruct (mapGet key m) eqn:Hg; [reflexivity |].
      apply mapGet_None in Hg. congruence.
    - apply mapGet_None in Hh. now rewrite Hh. }
  rewrite Hsame. split; [exact Hkeys | split].
  - pose proof (mapValues_mapSet key
                  (match mapGet key m with
                   | Some n => n + 1 | None => 1 end) m) as Hv.
    rewrite length_app. cbn.
    destruct (mapGet key m); lia.
  - intros k. cbv zeta. rewrite count_occ_app. cbn [count_occ].
    destruct (ConclusionKey_eq_dec key k) as [<- | Hne].
    + rewrite mapGet_mapSet_same, Hget. cbv zeta.
      destruct (count_occ ConclusionKey_eq_dec seen key) as [| n]; cbn;
        reflexivity.
    + rewrite mapGet_mapSet_other by assumption. rewrite Hget. cbv zeta.
      now rewrite Nat.add_0_r.
Qed.

Lemma counts_countConclusions steps :
  counts (countConclusions steps) (map keyOfStep steps).
Proof.
  unfold countConclusions.
  induction steps as [| step rest IH] using rev_ind.
  - repeat split; cbn; auto. constructor.
  - rewrite fold_left_app, map_app. cbn [fold_left map].
    now apply counts_countStep.
Qed.

End ConclusionMaps.

Section ConclusionText.

Import CheckRunListItem.

Lemma firstn_incl {A} n (l : list A) x : In x (firstn n l) -> In x l.
Proof.
  intros H. rewrite <- (firstn_skipn n l). apply in_or_app. now left.
Qed.

Lemma firstn_NoDup {A} n (l : list A) : NoDup l -> NoDup (firstn n l).
Proof.
  intros H. rewrite <- (firstn_skipn n l) in H.
  now apply NoDup_app_remove_r in H.
Qed.

(** The second loop appends, in the order of the table, the first three
    entries whose key the map has. *)
Lemma appendConclusions_fold m table :
  forall acc,
    List.length (appended acc) < 3 ->
    appendConclusions m table acc
    = fold_left (appendConclusion m)
                (firstn (3 - List.length (appended acc))
                        (filter (fun entry => mapHas (fst entry) m) table))
                acc.
Proof.
  induction table as [| entry rest IH]; intros acc Hlen.
  - cbn. now rewrite firstn_nil.
  - cbn [appendConclusions filter].
    destruct (mapHas (fst entry) m) eqn:Hhas.
    + assert (Happ : List.length (appended (appendConclusion m acc entry))
                     = S (List.length (appended acc))).
      { unfold appendConclusion. rewrite Hhas. cbn [appended].
        rewrite length_app. cbn. lia. }
      destruct (3 - List.length (appended acc)) as [| n] eqn:Hn; [lia |].
      cbn [firstn fold_left]. rewrite Happ.
      destruct (Nat.eqb_spec (S (List.length (appended acc))) 3) as [E | E].
      * assert (n = 0) as -> by lia. reflexivity.
      * rewrite IH by lia. rewrite Happ.
        replace (3 - S (List.length (appended acc))) with n by lia.
        reflexivity.
    + assert (Hsame : appendConclusion m acc entry = acc).
      { unfold appendConclusion. now rewrite Hhas. }
      rewrite Hsame.
      destruct (Nat.eqb_spec (List.length (appended acc)) 3); [lia |].
      now apply IH.
Qed.

Lemma appended_fold m entries :
  forall acc,
    (forall entry, In entry entries -> mapHas (fst entry) m = true) ->
    appended (fold_left (appendConclusion m) entries acc)
    = appended acc ++ map fst entries.
Proof.
  induction entries as [| entry rest IH]; intros acc Hall.
  - cbn. now rewrite app_nil_r.
  - cbn [fold_left map]. rewrite IH by (intros e He; apply Hall; now right).
    unfold appendConclusion at 1.
    rewrite (Hall entry (or_introl eq_refl)). cbn [appended].
    now rewrite <- app_assoc.
Qed.

Lemma appended_summarize m :
  appended (summarize m)
  = firstn 3 (filter (fun k => mapHas k m) (map fst orderedConclussions)).
Proof.
  unfold summarize. rewrite appendConclusions_fold by (cbn; lia).
  rewrite appended_fold.
  - cbn [appended app List.length Nat.sub].
    rewrite <- firstn_map. f_equal.
    induction orderedConclussions as [| e rest IH]; cbn; [reflexivity |].
    destruct (mapHas (fst e) m); cbn; now rewrite IH.
  - intros entry Hin. apply firstn_incl in Hin.
    apply filter_In in Hin. tauto.
Qed.

Lemma table_keys_NoDup : NoDup (map fst orderedConclussions).
Proof.
  cbn. repeat constructor; cbn; intuition discriminate.
Qed.

Lemma mapHas_countConclusions k steps :
  mapHas k (countConclusions steps) = (0 <? countOf k steps).
Proof.
  destruct (counts_countConclusions steps) as (_ & _ & Hget).
  specialize (Hget k). cbv zeta in Hget. fold (countOf k steps) in Hget.
  destruct (mapHas k (countConclusions steps)) eqn:Hh.
  - destruct (countOf k steps); [| reflexivity].
    cbn in Hget. apply mapGet_None in Hget. congruence.
  - apply mapGet_None in Hh. rewrite Hh in Hget.
    destruct (countOf k steps); [reflexivity | discriminate].
Qed.

Lemma mapGet_countConclusions k steps :
  0 < countOf k steps ->
  mapGet k (countConclusions steps) = Some (countOf k steps).
Proof.
  intros Hpos. destruct (counts_countConclusions steps) as (_ & _ & Hget).
  rewrite Hget. cbv zeta. fold (countOf k steps).
  destruct (countOf k steps); [lia | reflexivity].
Qed.

End ConclusionText.

Section ConclusionAccounting.

Import CheckRunListItem.

Lemma list_sum_cons (a : nat) (l : list nat) :
  list_sum (a :: l) = a + list_sum l.
Proof. reflexivity. Qed.

Lemma fold_left_add_list_sum {A} (g : A -> nat) (l : list A) :
  forall start,
    fold_left (fun count key => count + g key) l start
    = start + list_sum (map g l).
Proof.
  induction l as [| x rest IH]; intros start; cbn [fold_left map].
  - cbn. lia.
  - rewrite IH, list_sum_cons. lia.
Qed.

Lemma list_sum_filter_split {A} (g : A -> nat) (p : A -> bool) (l : list A) :
  list_sum (map g l)
  = list_sum (map g (filter p l))
    + list_sum (map g (filter (fun x => negb (p x)) l)).
Proof.
  induction l as [| x rest IH]; [reflexivity |].
  cbn [filter map]. destruct (p x); cbn [negb map];
    rewrite !list_sum_cons; lia.
Qed.

Lemma values_of_keys m :
  NoDup (mapKeys m) -> map (getOrZero m) (mapKeys m) = map snd m.
Proof.
  unfold mapKeys, getOrZero.
  induction m as [| [k v] rest IH]; intros Hnd; [reflexivity |].
  cbn [map fst snd] in *. inversion Hnd as [| ? ? Hnotin Hrest]; subst.
  cbn [mapGet]. rewrite keyEqb_refl. f_equal.
  rewrite <- IH by assumption. apply map_ext_in. intros k' Hk'.
  destruct (keyEqb k k') eqn:E; [| reflexivity].
  apply keyEqb_eq in E. subst k'. contradiction.
Qed.

Lemma includes_In k keys : includes k keys = true <-> In k keys.
Proof.
  unfold includes. rewrite existsb_exists. split.
  - intros [x [Hin Hx]]. apply keyEqb_eq in Hx. now subst.
  - intros Hin. exists k. split; [assumption | apply keyEqb_refl].
Qed.

(** The counts of the keys shown and the count of the remaining keys
    make up the whole map. *)
Lemma shown_and_remaining m shown :
  NoDup (mapKeys m) -> NoDup shown -> incl shown (mapKeys m) ->
  list_sum (map (getOrZero m) shown) + remainingCount m shown
  = list_sum (map snd m).
Proof.
  intros Hkeys Hshown Hincl. unfold remainingCount, remaining.
  rewrite (fold_left_add_list_sum (getOrZero m)). cbn [Nat.add].
  rewrite <- values_of_keys by assumption.
  rewrite (list_sum_filter_split (getOrZero m)
             (fun c => includes c shown) (mapKeys m)).
  f_equal. apply Permutation_list_sum, Permutation_map.
  apply NoDup_Permutation; [assumption | now apply NoDup_filter |].
  intros k. rewrite filter_In, includes_In. split; [| tauto].
  intros Hk. split; [now apply Hincl | assumption].
Qed.

Lemma shown_keys_facts m :
  NoDup (appended (summarize m))
  /\ incl (appended (summarize m)) (mapKeys m)
  /\ List.length (appended (summarize m)) <= 3.
Proof.
  rewrite appended_summarize. split; [| split].
  - apply firstn_NoDup, NoDup_filter, table_keys_NoDup.
  - intros k Hk. apply firstn_incl in Hk. apply filter_In in Hk.
    now apply mapHas_In.
  - apply firstn_le_length.
Qed.

Lemma filter_map_fst {A B} (p : A -> bool) (l : list (A * B)) :
  map fst (filter (fun entry => p (fst entry)) l) = filter p (map fst l).
Proof.
  induction l as [| e rest IH]; cbn; [reflexivity |].
  destruct (p (fst e)); cbn; now rewrite IH.
Qed.

Lemma getOrZero_countConclusions k steps :
  getOrZero (countConclusions steps) k = countOf k steps.
Proof.
  unfold getOrZero.
  destruct (counts_countConclusions steps) as (_ & _ & Hget).
  rewrite Hget. cbv zeta. fold (countOf k steps).
  now destruct (countOf k steps).
Qed.

(** When every step has a conclusion of the table, the keys of the map
    are the keys of the table that the map has. *)
Lemma listed_keys_permutation steps :
  forallb listed steps = true ->
  Permutation (filter (fun k => mapHas k (countConclusions steps))
                      (map fst orderedConclussions))
              (mapKeys (countConclusions steps)).
Proof.
  intros Hlisted.
  destruct (counts_countConclusions steps) as (Hnd & _ & _).
  apply NoDup_Permutation;
    [apply NoDup_filter, table_keys_NoDup | assumption |].
  intros k. rewrite filter_In, mapHas_In. split; [tauto |].
  intros Hk. split; [| assumption].
  apply mapHas_In in Hk.
  rewrite mapHas_countConclusions, Nat.ltb_lt in Hk. unfold countOf in Hk.
  apply (count_occ_In ConclusionKey_eq_dec) in Hk.
  apply in_map_iff in Hk. destruct Hk as [step [<- Hstep]].
  rewrite forallb_forall in Hlisted. specialize (Hlisted step Hstep).
  unfold listed in Hlisted. apply existsb_exists in Hlisted.
  destruct Hlisted as [entry [Hin He]]. apply keyEqb_eq in He.
  rewrite <- He. now apply in_map.
Qed.

Lemma shown_counts_accounted steps :
  list_sum (map (fun k => countOf k steps)
                (appended (summarize (countConclusions steps))))
  + remainingCount (countConclusions steps)
                   (appended (summarize (countConclusions steps)))
  = List.length steps.
Proof.
  destruct (counts_countConclusions steps) as (Hnd & Hsum & _).
  destruct (shown_keys_facts (countConclusions steps))
    as (Hshown & Hincl & _).
  pose proof (shown_and_remaining _ _ Hnd Hshown Hincl) as Hacc.
  rewrite Hsum, length_map in Hacc.
  now rewrite (map_ext _ _ (fun k => getOrZero_countConclusions k steps))
    in Hacc.
Qed.

End ConclusionAccounting.

Section ConclusionTheorems.

Import CheckRunListItem.

(** X5.  The first loop of [getStepConclusionText] counts the steps by
    conclusion, a step without conclusion counting as in progress: the
    map has a key exactly when some step has it, one entry per key, the
    value of a key is the number of steps that have it, and the values
    add up to the number of steps. *)
Theorem countConclusions_counts_steps :
  forall (steps : list IAPIWorkflowJobStep) (k : ConclusionKey),
    let conclusions := countConclusions steps in
    mapGet k conclusions
    = (if countOf k steps =? 0 then None else Some (countOf k steps))
    /\ (mapHas k conclusions = true
        <-> exists step, In step steps /\ keyOfStep step = k)
    /\ NoDup (mapKeys conclusions)
    /\ list_sum (map snd conclusions) = List.length steps.
Proof.
  intros steps k. cbv zeta.
  destruct (counts_countConclusions steps) as (Hnd & Hsum & Hget).
  split; [apply Hget | split; [| split]].
  - rewrite mapHas_countConclusions, Nat.ltb_lt. unfold countOf.
    split.
    + intros H. apply (count_occ_In ConclusionKey_eq_dec) in H.
      apply in_map_iff in H. destruct H as [step [Hk Hin]]. eauto.
    + intros [step [Hin <-]]. apply (count_occ_In ConclusionKey_eq_dec).
      now apply in_map.
  - exact Hnd.
  - now rewrite Hsum, length_map.
Qed.

(** X6.  The second loop shows the first three keys of the table, in the
    order of the table, that some step has: never more than three, and
    no key twice. *)
Theorem summarize_shows_first_three :
  forall steps : list IAPIWorkflowJobStep,
    let shown := appended (summarize (countConclusions steps)) in
    shown
    = firstn 3 (filter (fun k => 0 <? countOf k steps)
                       (map fst orderedConclussions))
    /\ List.length shown <= 3
    /\ NoDup shown.
Proof.
  intros steps. cbv zeta.
  destruct (shown_keys_facts (countConclusions steps)) as (Hnd & _ & Hlen).
  split; [| split; assumption].
  rewrite appended_summarize. f_equal. apply filter_ext.
  intros k. apply mapHas_countConclusions.
Qed.

(** X7.  No step is lost: the counts of the keys shown and the count of
    the remaining steps add up to the number of steps; and when every
    step has a conclusion of the table and there are at most three
    different ones, where the text does not mention a remainder, none
    remains. *)
Theorem steps_all_accounted :
  forall steps : list IAPIWorkflowJobStep,
    let conclusions := countConclusions steps in
    let shown := appended (summarize conclusions) in
    list_sum (map (fun k => countOf k steps) shown)
    + remainingCount conclusions shown
    = List.length steps
    /\ (forallb listed steps = true ->
        mapSize conclusions <= 3 ->
        remainingCount conclusions shown = 0).
Proof.
  intros steps. cbv zeta.
  destruct (counts_countConclusions steps) as (Hnd & Hsum & _).
  pose proof (shown_counts_accounted steps) as Hacc.
  split; [exact Hacc |].
  intros Hlisted Hsize.
  pose proof (listed_keys_permutation steps Hlisted) as Hperm.
  assert (Hall : appended (summarize (countConclusions steps))
                 = filter (fun k => mapHas k (countConclusions steps))
                          (map fst orderedConclussions)).
  { rewrite appended_summarize. apply firstn_all2.
    rewrite (Permutation_length Hperm). unfold mapKeys.
    now rewrite length_map. }
  rewrite Hall in Hacc |- *.
  assert (Htotal :
    list_sum (map (fun k => countOf k steps)
                  (filter (fun k => mapHas k (countConclusions steps))
                          (map fst orderedConclussions)))
    = List.length steps).
  { rewrite (Permutation_list_sum (Permutation_map _ Hperm)).
    rewrite <- (map_ext _ _ (fun k => getOrZero_countConclusions k steps)).
    rewrite values_of_keys by assumption.
    now rewrite Hsum, length_map. }
  lia.
Qed.

End ConclusionTheorems.

Section ConclusionShape.

Import CheckRunListItem.

Lemma string_append_assoc (a b c : string) :
  ((a ++ b) ++ c = a ++ (b ++ c))%string.
Proof. induction a as [| ch a IH]; cbn; [reflexivity | now rewrite IH]. Qed.

Lemma string_append_nonempty (a b : string) :
  a <> EmptyString -> (a ++ b)%string <> EmptyString.
Proof. destruct a; [congruence | discriminate]. Qed.

Lemma phrase_nonempty m entry : phrase m entry <> EmptyString.
Proof.
  unfold phrase. destruct (match mapGet (fst entry) m with
                           | Some n => numberToString n
                           | None => "undefined"%string
                           end); discriminate.
Qed.

Lemma appendConclusion_first m entry :
  mapHas (fst entry) m = true ->
  appendConclusion m {| conclusionText := ""; appended := [] |} entry
  = {| conclusionText := phrase m entry; appended := [fst entry] |}.
Proof.
  intros Hhas. unfold appendConclusion. rewrite Hhas. reflexivity.
Qed.

Lemma appendConclusion_next m acc entry :
  mapHas (fst entry) m = true ->
  conclusionText acc <> EmptyString ->
  appendConclusion m acc entry
  = {| conclusionText :=
         String.append
           (conclusionText acc)
           (String.append
              (if List.length (appended acc) <? mapSize m - 1
               then ", "%string else ", and "%string)
              (phrase m entry))
     ; appended := appended acc ++ [fst entry] |}.
Proof.
  intros Hhas Htext. unfold appendConclusion. rewrite Hhas.
  apply String.eqb_neq in Htext. rewrite Htext. cbn [negb].
  now rewrite string_append_assoc.
Qed.

(** X8.  When every step has a conclusion of the table, the text of
    [getStepConclusionText] lists the conclusions present in the order of
    the table, each with its number of steps: one alone, two or three
    joined with [", and "] before the last, and with more than three the
    first three followed by the number of all other steps. *)
Theorem getStepConclusionText_shape :
  forall steps : list IAPIWorkflowJobStep,
    forallb listed steps = true ->
    let present :=
      filter (fun entry => 0 <? countOf (fst entry) steps)
             orderedConclussions in
    let say := fun entry : ConclusionKey * string =>
      (numberToString (countOf (fst entry) steps) ++ " " ++ snd entry)%string
    in
    getStepConclusionText (Some steps)
    = match present with
      | [] => " steps"
      | [a] => say a ++ " steps"
      | [a; b] => say a ++ ", and " ++ say b ++ " steps"
      | [a; b; c] => say a ++ ", " ++ say b ++ ", and " ++ say c ++ " steps"
      | a :: b :: c :: _ :: _ =>
          say a ++ ", " ++ say b ++ ", " ++ say c ++ ", and "
          ++ numberToString
               (List.length steps
                - (countOf (fst a) steps + countOf (fst b) steps
                   + countOf (fst c) steps))
          ++ " steps"
      end%string.
Proof.
  intros steps Hlisted. cbv zeta.
  pose proof (shown_counts_accounted steps) as Hacc.
  set (m := countConclusions steps) in *.
  set (F := filter (fun entry => mapHas (fst entry) m) orderedConclussions).
  assert (HF : filter (fun entry => 0 <? countOf (fst entry) steps)
                      orderedConclussions = F).
  { apply filter_ext. intros e. symmetry. apply mapHas_countConclusions. }
  rewrite HF.
  assert (Hsize : mapSize m = List.length F).
  { pose proof (listed_keys_permutation steps Hlisted) as Hperm.
    fold m in Hperm. apply Permutation_length in Hperm.
    unfold mapKeys in Hperm. rewrite length_map in Hperm.
    unfold mapSize. rewrite <- Hperm.
    rewrite <- (filter_map_fst (fun k => mapHas k m)). apply length_map. }
  assert (Hsummary : summarize m
            = fold_left (appendConclusion m) (firstn 3 F)
                        {| conclusionText := ""; appended := [] |}).
  { unfold summarize. now rewrite appendConclusions_fold by (cbn; lia). }
  assert (Hentry : forall e, In e F ->
            mapHas (fst e) m = true
            /\ phrase m e
               = (numberToString (countOf (fst e) steps) ++ " " ++ snd e)%string).
  { intros e He. apply filter_In in He. destruct He as [_ Hhas].
    split; [assumption |]. unfold phrase.
    subst m. rewrite mapGet_countConclusions; [reflexivity |].
    rewrite mapHas_countConclusions in Hhas. now apply Nat.ltb_lt. }
  unfold getStepConclusionText. fold m. cbv zeta.
  rewrite Hsummary in Hacc |- *. clear Hsummary HF.
  destruct F as [| a [| b [| c [| d rest]]]].
  - rewrite Hsize. reflexivity.
  - destruct (Hentry a) as [Ha Pa]; [cbn; auto |].
    cbn [firstn fold_left]. rewrite appendConclusion_first by assumption.
    rewrite Hsize.
    cbn [conclusionText List.length Nat.ltb Nat.leb]. now rewrite Pa.
  - destruct (Hentry a) as [Ha Pa]; [cbn; auto |].
    destruct (Hentry b) as [Hb Pb]; [cbn; auto |].
    cbn [firstn fold_left]. rewrite appendConclusion_first by assumption.
    rewrite appendConclusion_next
      by (assumption || apply phrase_nonempty).
    rewrite Hsize.
    cbn [conclusionText appended List.length Nat.ltb Nat.leb Nat.sub].
    rewrite Pa, Pb, !string_append_assoc. reflexivity.
  - destruct (Hentry a) as [Ha Pa]; [cbn; auto |].
    destruct (Hentry b) as [Hb Pb]; [cbn; auto |].
    destruct (Hentry c) as [Hc Pc]; [cbn; auto |].
    cbn [firstn fold_left]. rewrite appendConclusion_first by assumption.
    rewrite (appendConclusion_next m _ b)
      by (assumption || apply phrase_nonempty).
    rewrite (appendConclusion_next m _ c)
      by (assumption
          || (cbn [conclusionText];
              apply string_append_nonempty, phrase_nonempty)).
    rewrite Hsize.
    cbn [conclusionText appended List.length Nat.ltb Nat.leb Nat.sub app].
    rewrite Pa, Pb, Pc, !string_append_assoc. reflexivity.
  - destruct (Hentry a) as [Ha Pa]; [cbn; auto |].
    destruct (Hentry b) as [Hb Pb]; [cbn; auto |].
    destruct (Hentry c) as [Hc Pc]; [cbn; auto |].
    cbn [firstn fold_left] in Hacc |- *.
    rewrite appendConclusion_first in Hacc |- * by assumption.
    rewrite (appendConclusion_next m _ b) in Hacc |- *
      by (assumption || apply phrase_nonempty).
    rewrite (appendConclusion_next m _ c) in Hacc |- *
      by (assumption
          || (cbn [conclusionText];
              apply string_append_nonempty, phrase_nonempty)).
    rewrite Hsize.
    cbn [conclusionText appended List.length Nat.ltb Nat.leb Nat.sub app]
      in Hacc |- *.
    cbn [map list_sum fold_right] in Hacc.
    replace (remainingCount m [fst a; fst b; fst c])
      with (List.length steps
            - (countOf (fst a) steps + countOf (fst b) steps
               + countOf (fst c) steps)) by lia.
    rewrite Pa, Pb, Pc, !string_append_assoc. reflexivity.
Qed.

End ConclusionShape.

Lemma steps_all_accounted_witness :
  CheckRunListItem.remainingCount
    (CheckRunListItem.countConclusions CheckSamples.twoKinds)
    (CheckRunListItem.appended
       (CheckRunListItem.summarize
          (CheckRunListItem.countConclusions CheckSamples.twoKinds)))
  = 0.
Proof.
  apply (proj2 (steps_all_accounted CheckSamples.twoKinds)).
  - reflexivity.
  - cbn. lia.
Defined.

Lemma getStepConclusionText_shape_witness :
  CheckRunListItem.getStepConclusionText (Some CheckSamples.fourKinds)
  = "1 failed, 1 in progress, 1 skipped, and 2 steps"%string.
Proof.
  exact (getStepConclusionText_shape CheckSamples.fourKinds eq_refl).
Defined.

(** X9.  The text is empty exactly when the check run has no array of
    job steps; with an array, even an empty one, it ends with
    [" steps"]. *)
Theorem getStepConclusionText_empty_iff_undefined :
  forall actionJobSteps : option (list CheckRunListItem.IAPIWorkflowJobStep),
    (CheckRunListItem.getStepConclusionText actionJobSteps = EmptyString
     <-> actionJobSteps = None)
    /\ (forall steps,
           actionJobSteps = Some steps ->
           exists text,
             CheckRunListItem.getStepConclusionText actionJobSteps
             = (text ++ " steps")%string).
Proof.
  intros actionJobSteps.
  assert (Hends : forall steps,
            exists text,
              CheckRunListItem.getStepConclusionText (Some steps)
              = (text ++ " steps")%string).
  { intros steps. unfold CheckRunListItem.getStepConclusionText. cbv zeta.
    destruct (3 <? _).
    - eexists. rewrite <- !string_append_assoc. reflexivity.
    - eexists. reflexivity. }
  split.
  - destruct actionJobSteps as [steps |]; [| split; reflexivity].
    split; [| discriminate]. destruct (Hends steps) as [text ->].
    destruct text; discriminate.
  - intros steps ->. apply Hends.
Qed.

Lemma getStepConclusionText_empty_iff_undefined_witness :
  exists text,
    CheckRunListItem.getStepConclusionText (Some CheckSamples.twoKinds)
    = (text ++ " steps")%string.
Proof.
  exact (proj2 (getStepConclusionText_empty_iff_undefined
                  (Some CheckSamples.twoKinds))
               CheckSamples.twoKinds eq_refl).
Defined.

(** * Properties of the check-run list *)

Lemma numberToString_inj (a b : nat) :
  numberToString a = numberToString b -> a = b.
Proof.
  unfold numberToString. intros H.
  apply (f_equal DecimalString.NilEmpty.uint_of_string) in H.
  rewrite !DecimalString.NilEmpty.usu in H. injection H as H.
  apply (f_equal Nat.of_uint) in H.
  now rewrite !DecimalNat.Unsigned.of_to in H.
Qed.

Lemma numberToString_eqb (a b : nat) :
  (numberToString a =? numberToString b)%string = (a =? b).
Proof.
  destruct (Nat.eqb_spec a b) as [-> | Hne].
  - apply String.eqb_refl.
  - apply String.eqb_neq. intros H. now apply numberToString_inj in H.
Qed.

Section CheckRunListFacts.

Import CheckRunList.

Variable IRefCheck : Type.
Variable id : IRefCheck -> nat.
Variable actionJobSteps :
  IRefCheck -> option (list CheckRunListItem.IAPIWorkflowJobStep).
Variable isFailure : IRefCheck -> bool.
Variable grouped : list IRefCheck -> list (string * list IRefCheck).

Local Notation "'setup'" :=
  (setupStateAfterCheckRunPropChange id actionJobSteps isFailure grouped).
Local Notation "'didUpdate'" :=
  (componentDidUpdate id actionJobSteps isFailure grouped).
Local Notation "'failing'" := (failureWithSteps actionJobSteps isFailure).

Lemma firstFailureExpanded_find (groups : list (list IRefCheck)) :
  firstFailureExpanded id actionJobSteps isFailure groups
  = option_map (fun cr => numberToString (id cr))
               (find failing (concat groups)).
Proof.
  induction groups as [| group rest IH]; [reflexivity |].
  cbn [firstFailureExpanded concat].
  induction group as [| cr more IHg]; [exact IH |].
  cbn [find app]. destruct (failing cr); [reflexivity | exact IHg].
Qed.

(** X10.  A new list shows the groups computed from its check runs, has
    registered no click, and expands the first check run, in the order of
    the groups, that is a failure and has job steps; it expands nothing
    exactly when no check run of any group is such a failure. *)
Theorem initialState_expands_first_failure :
  forall props : ICICheckRunListProps IRefCheck,
    let state := initialState id actionJobSteps isFailure grouped props in
    let all := concat (map snd (checkRunGroups state)) in
    checkRunGroups state = grouped (checkRuns props)
    /\ hasUserToggledCheckRun state = false
    /\ checkRunExpanded state
       = option_map (fun cr => numberToString (id cr)) (find failing all)
    /\ (checkRunExpanded state = None
        <-> forall cr, In cr all -> failing cr = false).
Proof.
  intros props. cbv zeta. unfold initialState. cbn.
  rewrite firstFailureExpanded_find.
  split; [reflexivity | split; [reflexivity | split; [reflexivity |]]].
  destruct (find failing (concat (map snd (grouped (checkRuns props)))))
    as [cr |] eqn:Hfind; cbn.
  - split; [discriminate |]. intros Hnone.
    apply find_some in Hfind. destruct Hfind as [Hin Hcr].
    rewrite (Hnone cr Hin) in Hcr. discriminate.
  - split; [| reflexivity]. intros _. now apply find_none.
Qed.

(** X11.  Once the user has clicked a check run, the list keeps the
    state the click left, whatever the props become: neither
    [setupStateAfterCheckRunPropChange] nor [componentDidUpdate] changes
    it, however often they run. *)
Theorem click_position_is_kept :
  forall (props later : ICICheckRunListProps IRefCheck)
         (state : ICICheckRunListState IRefCheck) (checkRun : IRefCheck)
         (updates : nat),
    let clicked := fst (onCheckRunClick id props state checkRun) in
    hasUserToggledCheckRun clicked = true
    /\ setup later (Some clicked) = clicked
    /\ Nat.iter updates (didUpdate later) clicked = clicked.
Proof.
  intros props later state checkRun updates. cbv zeta.
  split; [reflexivity | split; [reflexivity |]].
  set (clicked := fst (onCheckRunClick id props state checkRun)).
  induction updates as [| n IH]; [reflexivity |].
  change (Nat.iter (S n) (didUpdate later) clicked)
    with (didUpdate later (Nat.iter n (didUpdate later) clicked)).
  rewrite IH. reflexivity.
Qed.

(** X12.  [componentDidUpdate] never looks at the props: it keeps the
    groups of the state, so check runs that arrive later are not
    regrouped, its result is the same for any props, and running it again
    changes nothing. *)
Theorem componentDidUpdate_ignores_props :
  forall (props other : ICICheckRunListProps IRefCheck)
         (state : ICICheckRunListState IRefCheck),
    checkRunGroups (didUpdate props state) = checkRunGroups state
    /\ didUpdate props state = didUpdate other state
    /\ didUpdate props (didUpdate props state) = didUpdate props state.
Proof.
  intros props other [groups expanded toggled].
  unfold componentDidUpdate, setupStateAfterCheckRunPropChange.
  destruct toggled; cbn; repeat split.
Qed.

(** X13.  In a list that is not selectable, a click on a check run that
    is not expanded expands the items with the id of that check run and
    no other item, selects nothing, and a second click on it collapses
    the list again. *)
Theorem click_toggles_expansion :
  forall (props : ICICheckRunListProps IRefCheck)
         (state : ICICheckRunListState IRefCheck) (checkRun : IRefCheck),
    selectableTruthy props = false ->
    isExpanded id state checkRun = false ->
    let once := fst (onCheckRunClick id props state checkRun) in
    let twice := fst (onCheckRunClick id props once checkRun) in
    (forall c, itemExpanded (itemFlags id props once c) = (id c =? id checkRun))
    /\ (forall c, itemSelected (itemFlags id props once c) = false)
    /\ checkRunExpanded twice = None
    /\ (forall c, itemExpanded (itemFlags id props twice c) = false).
Proof.
  intros props state checkRun Hsel Hclosed. cbv zeta.
  unfold onCheckRunClick, itemFlags. rewrite Hclosed, !Hsel.
  cbn [fst andb negb itemExpanded itemSelected].
  unfold isExpanded at 2 3 4. cbn [checkRunExpanded].
  rewrite String.eqb_refl. cbn [andb negb fst checkRunExpanded].
  unfold isExpanded. cbn [checkRunExpanded].
  repeat split; intros c.
  rewrite numberToString_eqb. apply Nat.eqb_sym.
Qed.

(** X14.  In a selectable list a click selects the items with the id of
    the clicked check run and no other, expands nothing, and clicking the
    same check run again leaves it selected. *)
Theorem click_selects :
  forall (props : ICICheckRunListProps IRefCheck)
         (state : ICICheckRunListState IRefCheck) (checkRun : IRefCheck),
    selectableTruthy props = true ->
    let once := fst (onCheckRunClick id props state checkRun) in
    (forall c, itemSelected (itemFlags id props once c) = (id c =? id checkRun))
    /\ (forall c, itemExpanded (itemFlags id props once c) = false)
    /\ fst (onCheckRunClick id props once checkRun) = once.
Proof.
  intros props state checkRun Hsel. cbv zeta.
  unfold onCheckRunClick, itemFlags. rewrite !Hsel.
  rewrite !andb_false_r. cbn [fst andb negb itemExpanded itemSelected].
  repeat split; intros c.
  unfold isExpanded. cbn [checkRunExpanded].
  rewrite numberToString_eqb. apply Nat.eqb_sym.
Qed.

End CheckRunListFacts.

Lemma click_toggles_expansion_witness :
  let state :=
    CheckRunList.initialState CheckSamples.runId CheckSamples.runSteps
      CheckSamples.runFailed CheckSamples.oneGroup CheckSamples.plainList in
  let once :=
    fst (CheckRunList.onCheckRunClick CheckSamples.runId
           CheckSamples.plainList state CheckSamples.buildRun) in
  CheckRunList.checkRunExpanded state = Some "31"%string
  /\ CheckRunList.checkRunExpanded once = Some "7"%string
  /\ CheckRunList.checkRunExpanded
       (fst (CheckRunList.onCheckRunClick CheckSamples.runId
               CheckSamples.plainList once CheckSamples.buildRun))
     = None.
Proof.
  split; [reflexivity | split; [reflexivity |]].
  exact (proj1 (proj2 (proj2
           (click_toggles_expansion CheckSamples.CheckRun CheckSamples.runId
              CheckSamples.plainList
              (CheckRunList.initialState CheckSamples.runId
                 CheckSamples.runSteps CheckSamples.runFailed
                 CheckSamples.oneGroup CheckSamples.plainList)
              CheckSamples.buildRun eq_refl eq_refl)))).
Defined.

Lemma click_selects_witness :
  let state :=
    CheckRunList.initialState CheckSamples.runId CheckSamples.runSteps
      CheckSamples.runFailed CheckSamples.oneGroup
      CheckSamples.selectableList in
  let once :=
    fst (CheckRunList.onCheckRunClick CheckSamples.runId
           CheckSamples.selectableList state CheckSamples.lintRun) in
  fst (CheckRunList.onCheckRunClick CheckSamples.runId
         CheckSamples.selectableList once CheckSamples.lintRun)
  = once.
Proof.
  exact (proj2 (proj2
           (click_selects CheckSamples.CheckRun CheckSamples.runId
              CheckSamples.selectableList
              (CheckRunList.initialState CheckSamples.runId
                 CheckSamples.runSteps CheckSamples.runFailed
                 CheckSamples.oneGroup CheckSamples.selectableList)
              CheckSamples.lintRun eq_refl))).
Defined.

(** * Properties of the arguments of [git pull] *)

Lemma firstn_through_pull (network rebase tail : list string) :
  firstn (List.length network + List.length rebase + 1)
         (network ++ rebase ++ "pull"%string :: tail)
  = network ++ rebase ++ ["pull"%string].
Proof.
  replace (network ++ rebase ++ "pull"%string :: tail)
    with ((network ++ rebase ++ ["pull"%string]) ++ tail)
    by now rewrite <- !app_assoc.
  replace (List.length network + List.length rebase + 1)
    with (List.length (network ++ rebase ++ ["pull"%string]) + 0)
    by (rewrite !length_app; cbn; lia).
  rewrite firstn_app_2. cbn. apply app_nil_r.
Qed.

(** X15.  The arguments [getPullArgs] builds end with the remote, start
    with the network and rebase arguments followed by [pull], and, when
    neither of these nor the name of the remote is [--ff], contain
    [--ff] exactly when neither [pull.rebase] nor [pull.ff] is
    configured. *)
Theorem getPullArgs_remote_last_and_ff :
  forall (networkArguments rebaseArguments : list string)
         (pullRebase pullFF : option string)
         (recurseSubmodules progressCallbackGiven : bool) (remote : string),
    let args :=
      Pull.getPullArgs networkArguments rebaseArguments pullRebase pullFF
                       recurseSubmodules progressCallbackGiven remote in
    last args EmptyString = remote
    /\ firstn (List.length networkArguments + List.length rebaseArguments + 1)
              args
       = networkArguments ++ rebaseArguments ++ ["pull"%string]
    /\ (~ In "--ff"%string networkArguments ->
        ~ In "--ff"%string rebaseArguments ->
        remote <> "--ff"%string ->
        (In "--ff"%string args <-> pullRebase = None /\ pullFF = None)).
Proof.
  intros network rebase pullRebase pullFF recurse progress remote.
  cbv zeta. unfold Pull.getPullArgs. cbv zeta. split; [apply last_last |].
  split.
  - destruct pullRebase, pullFF, recurse, progress; cbn [app negb orb
      Pull.getDefaultPullDivergentBranchArguments];
      rewrite <- ?app_assoc; cbn [app]; apply firstn_through_pull.
  - intros Hn Hr Hremote.
    destruct pullRebase, pullFF, recurse, progress; cbn [app negb orb
      Pull.getDefaultPullDivergentBranchArguments];
      rewrite !in_app_iff; cbn [In];
      (split;
       [ intros H; repeat destruct H as [H | H];
         try contradiction; try discriminate; try (symmetry in H; contradiction);
         try (split; reflexivity)
       | intros [H1 H2]; try discriminate; auto 10 ]).
Qed.

Lemma getPullArgs_remote_last_and_ff_witness :
  In "--ff"%string
     (Pull.getPullArgs ["-c"; "credential.helper="]%string
                       ["-c"; "rebase.backend=merge"]%string
                       None None true true "origin")
  <-> @None string = None /\ @None string = None.
Proof.
  apply (proj2 (proj2 (getPullArgs_remote_last_and_ff
                         ["-c"; "credential.helper="]%string
                         ["-c"; "rebase.backend=merge"]%string
                         None None true true "origin"%string))).
  - cbn. intuition discriminate.
  - cbn. intuition discriminate.
  - discriminate.
Defined.
